(** * Mysterious dungeon: the simulation core

    A shallow embedding of [Game] (game.h and its implementation), of the
    [Entity] interface (entity.h) and of the background path task of the
    Orc, with the properties of movement, combat, roster population and
    level loading.

    Integers are [Z]: every coordinate, health and attack value the game
    reaches stays far inside the range of a C++ [int]. *)

From Stdlib Require Import ZArith QArith Qpower Lia Bool.
From stdpp Require Import base list.

Local Open Scope Z_scope.

(** ** Spatial primitive *)

(** Modelled from the spec: [Point] of utils.h, which is missing, is the
    integer pair the game reads through [.x] and [.y] and compares with
    [==]. *)
Record Point := mkPoint { px : Z; py : Z }.

Definition Point_eqb (a b : Point) : bool :=
  (px a =? px b) && (py a =? py b).

Definition offset (p : Point) (dx dy : Z) : Point :=
  mkPoint (px p + dx) (py p + dy).

(** Modelled from the spec: [Point::distance] (utils.h is missing) is the
    Euclidean metric.  The game only compares it with an integer bound, and
    on integer coordinates [sqrt n <= d] holds exactly when [n <= d * d]
    (for [<] likewise), so the comparison is kept on the squares. *)
Definition distanceSq (a b : Point) : Z :=
  (px a - px b) * (px a - px b) + (py a - py b) * (py a - py b).

Definition distance_le (a b : Point) (d : Z) : bool := distanceSq a b <=? d * d.
Definition distance_lt (a b : Point) (d : Z) : bool := distanceSq a b <? d * d.

(** ** Entity (entity.h) *)

Record Represetiation := mkRepresetiation { symbol : Z; color : Z }.

Record Entity := mkEntity {
  position : Point;
  velocity : Point;
  health : Z;
  strength : Z;
  representation : Represetiation
}.

(** The bodies of the members declared in entity.h are in entity.cpp, which
    is missing; each is taken from the spec's entity model. *)

(** Modelled from the spec: [Entity::getPosition], a pure accessor. *)
Definition getPosition (e : Entity) : Point := position e.

(** Modelled from the spec: [Entity::getHealth], taken as the accessor of
    the health that [takeDamage] works on and [isAlive] tests; no function
    of the sources calls it, and it is used below to name that field only. *)
Definition getHealth (e : Entity) : Z := health e.

(** Modelled from the spec: [Entity::getAttack], a pure accessor. *)
Definition getAttack (e : Entity) : Z := strength e.

(** Modelled from the spec: [Entity::isAlive], alive is health > 0. *)
Definition isAlive (e : Entity) : bool := 0 <? health e.

(** Modelled from the spec: [Entity::setPosition]. *)
Definition setPosition (e : Entity) (p : Point) : Entity :=
  mkEntity p (velocity e) (health e) (strength e) (representation e).

(** Modelled from the spec: [Entity::move] applies the offset to the
    position unconditionally. *)
Definition move (e : Entity) (dx dy : Z) : Entity :=
  setPosition e (offset (position e) dx dy).

(** Modelled from the spec: [Entity::takeDamage] subtracts the amount from
    the health, which may go below zero. *)
Definition takeDamage (e : Entity) (damage : Z) : Entity :=
  mkEntity (position e) (velocity e) (health e - damage) (strength e)
           (representation e).

(** ** The process-wide pseudo random generator

    [rand()] is the C library's: the values of its successive calls are the
    stream [rseq], and [rcalls] counts the calls made so far. *)
Record Rng := mkRng { rseq : nat -> Z; rcalls : nat }.

Definition rand (r : Rng) : Z * Rng :=
  (rseq r (rcalls r), mkRng (rseq r) (S (rcalls r))).

(** [rand() % 3 != 0]: the acting side lands its blow. *)
Definition lands (roll : Z) : bool := negb (Z.rem roll 3 =? 0).

(** ** The exchange loop of [Game::fight] *)

Inductive Side := Attacker | Defender.

(** The lines pushed on [fightInfo], with the combatant named by its side
    instead of its [toString()]. *)
Inductive FightLine :=
| Attacks
| IsLoosing (who : Side) (hp : Z)
| Missed (who : Side)
| IsDead (who : Side).

Record Fight := mkFight {
  attacker : Entity;
  defender : Entity;
  fightInfo : list FightLine;
  frng : Rng
}.

(** One pass through the body of the [while] loop. *)
Definition fightRound (s : Fight) : Fight :=
  let (roll1, r1) := rand (frng s) in
  let a := attacker s in
  let d1 := if lands roll1 then takeDamage (defender s) (getAttack a)
            else defender s in
  let info1 := if lands roll1
               then fightInfo s ++ [IsLoosing Defender (getAttack a)]
               else fightInfo s ++ [Missed Attacker] in
  let (roll2, r2) := rand r1 in
  let a2 := if lands roll2 then takeDamage a (getAttack d1) else a in
  let info2 := if lands roll2
               then info1 ++ [IsLoosing Attacker (getAttack d1)]
               else info1 ++ [Missed Defender] in
  mkFight a2 d1 info2 r2.

(** [while (attacker.isAlive() && defender.isAlive()) ...]: [fuel] bounds
    the number of rounds, [None] is a loop still running when it is used up. *)
Fixpoint fightLoop (fuel : nat) (s : Fight) : option Fight :=
  if isAlive (attacker s) && isAlive (defender s) then
    match fuel with
    | O => None
    | S fuel' => fightLoop fuel' (fightRound s)
    end
  else Some s.


(** ** Monsters, player and map *)

Inductive Species := Goblin | Orc | Troll | Dragon.

(** Modelled from the spec: monster.h is missing.  A monster is an [Entity]
    of one of four species, and an Orc owns a pursuit path.  The roster
    holds each monster through a [std::unique_ptr]: [self] is the address of
    the object that pointer owns. *)
Record Monster := mkMonster {
  species : Species;
  self : nat;
  body : Entity;
  path : list Point
}.

Definition setBody (m : Monster) (e : Entity) : Monster :=
  mkMonster (species m) (self m) e (path m).
Definition setPath (m : Monster) (p : list Point) : Monster :=
  mkMonster (species m) (self m) (body m) p.
Definition isPathEmpty (m : Monster) : bool :=
  match path m with [] => true | _ => false end.
Definition isOrc (m : Monster) : bool :=
  match species m with Orc => true | _ => false end.

(** Modelled from the spec: [Player] (its header is missing) is an [Entity]
    with the experience it has gathered. *)
Record Player := mkPlayer { pbody : Entity; exp : Z }.

Definition getExp (p : Player) : Z := exp p.
Definition setExp (p : Player) (x : Z) : Player := mkPlayer (pbody p) x.

(** Modelled from the spec: map.h is missing.  The map answers the
    free-cell query, names a start and an end cell, keeps the fight log it
    is handed, and hands out random free cells: [freeCells] is the stream
    of the cells [randomFreePosition] returns, [freeCalls] the calls made. *)
Record Map := mkMap {
  freeCell : Point -> bool;
  startCell : Point;
  endCell : Point;
  shownFightInfo : list FightLine;
  freeCells : nat -> Point;
  freeCalls : nat
}.

Definition isPositionFree (m : Map) (p : Point) : bool := freeCell m p.
Definition getStart (m : Map) : Point := startCell m.
Definition getEnd (m : Map) : Point := endCell m.
Definition setFightInfo (m : Map) (info : list FightLine) : Map :=
  mkMap (freeCell m) (startCell m) (endCell m) info (freeCells m) (freeCalls m).
Definition randomFreePosition (m : Map) : Point * Map :=
  (freeCells m (freeCalls m),
   mkMap (freeCell m) (startCell m) (endCell m) (shownFightInfo m)
         (freeCells m) (S (freeCalls m))).

(** ** Game (game.h)

    [level], [player], [gameMap] and [monsters] are the members of the
    class.  Carried along with them is the state of the process the game
    works on: the random generator, the next address of the allocator, and
    the detached path threads, each holding the address of its Orc. *)
Record Game := mkGame {
  level : Z;
  player : Player;
  gameMap : Map;
  monsters : list Monster;
  rng : Rng;
  nextAddress : nat;
  threads : list nat
}.

Definition setPlayer (g : Game) (p : Player) : Game :=
  mkGame (level g) p (gameMap g) (monsters g) (rng g) (nextAddress g) (threads g).
Definition setMap (g : Game) (m : Map) : Game :=
  mkGame (level g) (player g) m (monsters g) (rng g) (nextAddress g) (threads g).
Definition setMonsters (g : Game) (ms : list Monster) : Game :=
  mkGame (level g) (player g) (gameMap g) ms (rng g) (nextAddress g) (threads g).
Definition setRng (g : Game) (r : Rng) : Game :=
  mkGame (level g) (player g) (gameMap g) (monsters g) r (nextAddress g) (threads g).
Definition detach (g : Game) (orc : nat) : Game :=
  mkGame (level g) (player g) (gameMap g) (monsters g) (rng g) (nextAddress g)
         (threads g ++ [orc]).

(** An [Entity &] of the game: the player, or the monster at an index of
    the roster. *)
Inductive EntityRef := ThePlayer | TheMonster (i : nat).

Definition getEntity (g : Game) (r : EntityRef) : option Entity :=
  match r with
  | ThePlayer => Some (pbody (player g))
  | TheMonster i => body <$> monsters g !! i
  end.

Definition setEntity (g : Game) (r : EntityRef) (e : Entity) : Game :=
  match r with
  | ThePlayer => setPlayer g (mkPlayer e (exp (player g)))
  | TheMonster i => setMonsters g (alter (fun m => setBody m e) i (monsters g))
  end.

(** ** Movement and collision: [Game::updateEntityPosition] *)

(** The Orc special case: the address handed to the new thread, when one is
    started. *)
Definition pathThread (g : Game) (r : EntityRef) : option nat :=
  match r with
  | ThePlayer => None
  | TheMonster i =>
      match monsters g !! i with
      | Some m =>
          if isOrc m
             && (isPathEmpty m
                 || distance_lt (getPosition (body m))
                                (getPosition (pbody (player g))) 8)
          then Some (self m) else None
      | None => None
      end
  end.

(** The move and its check: [oldPos] is recorded, the entity moved, and
    put back when its new cell is not free. *)
Definition moveOrRevert (m : Map) (entity : Entity) (dx dy : Z) : Entity :=
  let oldPos := getPosition entity in
  let moved := move entity dx dy in
  if negb (isPositionFree m (getPosition moved))
  then setPosition moved oldPos else moved.

Definition updateEntityPosition (g : Game) (r : EntityRef) (dx dy : Z) : Game :=
  let g1 := match pathThread g r with
            | Some orc => detach g orc
            | None => g
            end in
  match getEntity g1 r with
  | Some entity => setEntity g1 r (moveOrRevert (gameMap g1) entity dx dy)
  | None => g1
  end.

(** ** The body of a path thread

    [astar] is what [AStar(...).getPath()] gives the thread: a path, or
    [None] when it throws the [runtime_error] the thread catches. *)

(** [dynamic_cast<Orc *>] applied to a pointer that already has the type
    [Orc *]: the standard makes it the identity, with no look at the object. *)
Definition dynamic_cast_Orc (p : option nat) : option nat := p.

(** What a thread does when its search is over: it drops the path, or it
    calls [orc.setPath(path)].  The call sets the path of the Orc when the
    roster still owns the object at that address; when the roster has
    destroyed it, the call writes into freed storage. *)
Inductive ThreadStep :=
| Discarded
| PathSet (g : Game)
| WroteFreed (orc : nat) (p : list Point).

(** Some [unique_ptr] of the roster owns the object at the address [orc]. *)
Definition inRoster (g : Game) (orc : nat) : bool :=
  existsb (fun m => Nat.eqb (self m) orc) (monsters g).

Definition runPathThread (g : Game) (orc : nat) (astar : option (list Point))
  : ThreadStep :=
  match astar with
  | None => Discarded
  | Some p =>
      if bool_decide (is_Some (dynamic_cast_Orc (Some orc)))
         && negb (match p with [] => true | _ => false end)
      then
        if inRoster g orc
        then PathSet (setMonsters g
               (List.map (fun m => if Nat.eqb (self m) orc then setPath m p else m)
                         (monsters g)))
        else WroteFreed orc p
      else Discarded
  end.

(** ** Combat: [Game::fight] *)

(** How a call that may end the process comes back: the fight is still
    running when the fuel is used up, the process was ended by
    [raise(SIGQUIT)], the call has read an object it had destroyed (from
    there on C++ gives it no meaning), or the game goes on. *)
Inductive Result := OutOfFuel | Quit | UseAfterFree | Running (g : Game).

Definition isGameOver (g : Game) : bool := negb (isAlive (pbody (player g))).

(** The two references name the same object. *)
Definition sameEntity (a d : EntityRef) : bool :=
  match a, d with
  | ThePlayer, ThePlayer => true
  | TheMonster i, TheMonster j => Nat.eqb i j
  | _, _ => false
  end.

(** One pass through the body of the [while] loop when [attacker] and
    [defender] are references to one object: each blow that lands is taken
    by that object, and both references see it. *)
Definition soloRound (s : Fight) : Fight :=
  let (roll1, r1) := rand (frng s) in
  let e := defender s in
  let e1 := if lands roll1 then takeDamage e (getAttack e) else e in
  let info1 := if lands roll1
               then fightInfo s ++ [IsLoosing Defender (getAttack e)]
               else fightInfo s ++ [Missed Attacker] in
  let (roll2, r2) := rand r1 in
  let e2 := if lands roll2 then takeDamage e1 (getAttack e1) else e1 in
  let info2 := if lands roll2
               then info1 ++ [IsLoosing Attacker (getAttack e1)]
               else info1 ++ [Missed Defender] in
  mkFight e2 e2 info2 r2.

Fixpoint soloLoop (fuel : nat) (s : Fight) : option Fight :=
  if isAlive (attacker s) && isAlive (defender s) then
    match fuel with
    | O => None
    | S fuel' => soloLoop fuel' (soloRound s)
    end
  else Some s.

(** The entity behind the reference is a monster that is not alive: the
    erase of the dead destroys it. *)
Definition erased (g : Game) (r : EntityRef) : bool :=
  match r with
  | ThePlayer => false
  | TheMonster i =>
      match monsters g !! i with
      | Some m => negb (isAlive (body m))
      | None => false
      end
  end.

(** The loop works on the two entities, which are two objects in every
    call the game makes ([soloLoop] stands for the loop on one object).
    After the loop the dead are erased from the roster, and the last line
    of the log is then built from [defender.toString()]: when the defender
    is a monster the erase has just destroyed, that call reads freed
    storage. *)
Definition fight (fuel : nat) (g : Game) (a d : EntityRef) : Result :=
  match getEntity g a, getEntity g d with
  | Some ea, Some ed =>
      match (if sameEntity a d then soloLoop else fightLoop)
              fuel (mkFight ea ed [Attacks] (rng g)) with
      | None => OutOfFuel
      | Some s =>
          let g1 := setRng (setEntity (setEntity g a (attacker s)) d (defender s))
                           (frng s) in
          if negb (isAlive (pbody (player g1))) then Quit
          else
            let g2 := setPlayer g1 (setExp (player g1) (getExp (player g1) + 10)) in
            let g3 := setMonsters g2
                        (List.filter (fun m => isAlive (body m)) (monsters g2)) in
            if erased g2 d then UseAfterFree
            else Running (setMap g3 (setFightInfo (gameMap g3)
                                                  (fightInfo s ++ [IsDead Defender])))
      end
  | _, _ => Running g
  end.

(** ** Monster update: [Game::updatePositions] *)

Definition areEntitiesInVicinity (entity1 entity2 : Entity) (distance : Z) : bool :=
  distance_le (getPosition entity1) (getPosition entity2) distance.

(** [dx] and [dy] as the loop body computes them for one monster. *)
Definition monsterStep (p : Player) (m : Monster) : Z * Z :=
  if areEntitiesInVicinity (pbody p) (body m) 10 then
    let dx := px (getPosition (pbody p)) - px (getPosition (body m)) in
    let dy := py (getPosition (pbody p)) - py (getPosition (body m)) in
    (if negb (dx =? 0) then Z.quot dx (Z.abs dx) else dx,
     if negb (dy =? 0) then Z.quot dy (Z.abs dy) else dy)
  else (1, 1).

(** Whether the monster at index [i] stands on the player's cell. *)
Definition onPlayer (g : Game) (i : nat) : bool :=
  match monsters g !! i with
  | Some m => Point_eqb (getPosition (pbody (player g))) (getPosition (body m))
  | None => false
  end.

(** The range-for over the roster, from index [i] on with [todo] monsters
    left; the fight ends it. *)
Fixpoint updatePositionsFrom (fuel todo i : nat) (g : Game) : Result :=
  match todo with
  | O => Running g
  | S todo' =>
      match monsters g !! i with
      | Some monster =>
          let (dx, dy) := monsterStep (player g) monster in
          let g1 := updateEntityPosition g (TheMonster i) dx dy in
          if onPlayer g1 i then fight fuel g1 (TheMonster i) ThePlayer
          else updatePositionsFrom fuel todo' (S i) g1
      | None => Running g
      end
  end.

Definition updatePositions (fuel : nat) (g : Game) : Result :=
  updatePositionsFrom fuel (length (monsters g)) 0 g.

(** ** Roster population and level loading *)

(** The conversion of a [double] to the [int] parameter of
    [initalizeMonsters]: truncation toward zero. *)
Definition truncate (q : Q) : Z := Z.quot (Qnum q) (Zpos (Qden q)).

(** [GameSettings::monsterCount + pow(2, level - 1)] as the [int] it is
    passed as.  The power of two and the sum are exact in a [double], and
    the conversion is the truncation as long as the value is within the
    range of [int]; past 2147483647 C++ gives the conversion no meaning,
    and the statements on the count carry that bound. *)
Definition levelMonsterCount (monsterCount lvl : Z) : Z :=
  truncate (inject_Z monsterCount + Qpower (2 # 1) (lvl - 1))%Q.

Section Level.

(** Not part of the sources: the constant of utils/game_settings.h, the
    table of the species' base health, attack and glyph (monster.h) and the
    regeneration of the layout by [Map::loadLevel] (map.h). *)
Variable monsterCount : Z.
Variable baseHealth baseAttack : Species -> Z.
Variable glyph : Species -> Represetiation.
Variable Map_loadLevel : Map -> Map.

(** Modelled from the spec: the constructors [Goblin(position)], ...,
    [Dragon(position)] of monster.h, which is missing.  The monster stands
    on the position it is given, with the health and attack of its species. *)
Definition newMonster (sp : Species) (pos : Point) : Entity :=
  mkEntity pos (mkPoint 0 0) (baseHealth sp) (baseAttack sp) (glyph sp).

(** [builder(position)] pushed on the roster: [std::make_unique] takes the
    next address. *)
Definition pushMonster (g : Game) (sp : Species) (pos : Point) : Game :=
  mkGame (level g) (player g) (gameMap g)
         (monsters g ++ [mkMonster sp (nextAddress g) (newMonster sp pos) []])
         (rng g) (S (nextAddress g)) (threads g).

(** The lambda [createMonster]: [for (int i = 0; i < count; i++)]. *)
Fixpoint createMonsterLoop (n : nat) (sp : Species) (g : Game) : Game :=
  match n with
  | O => g
  | S n' =>
      let (pos, m) := randomFreePosition (gameMap g) in
      createMonsterLoop n' sp (pushMonster (setMap g m) sp pos)
  end.

Definition createMonster (count : Z) (sp : Species) (g : Game) : Game :=
  createMonsterLoop (Z.to_nat count) sp g.

Definition initalizeMonsters (count : Z) (g : Game) : Game :=
  let g0 := setMonsters g [] in
  let goblinsCount := Z.quot count 2 in
  let orcsCount := Z.quot count 3 in
  let trollsCount := Z.quot count 6 in
  let dragonsCount := count - goblinsCount - orcsCount - trollsCount in
  createMonster dragonsCount Dragon
    (createMonster trollsCount Troll
       (createMonster orcsCount Orc
          (createMonster goblinsCount Goblin g0))).

Definition loadLevel (g : Game) : Game :=
  let g1 := setMap g (Map_loadLevel (gameMap g)) in
  let g2 := setPlayer g1 (mkPlayer (setPosition (pbody (player g1))
                                                 (getStart (gameMap g1)))
                                   (exp (player g1))) in
  initalizeMonsters (levelMonsterCount monsterCount (level g2)) g2.

Definition isLevelComplete (g : Game) : bool :=
  Point_eqb (getPosition (pbody (player g))) (getEnd (gameMap g)).

(** ** Input and the turn loop *)

Inductive Key := KeyQuit | KeyUp | KeyDown | KeyLeft | KeyRight | KeySpace | KeyOther.

(** The index of the first monster of [ms] standing on [p], counted from [i]. *)
Fixpoint firstMonsterAt (p : Point) (ms : list Monster) (i : nat) : option nat :=
  match ms with
  | [] => None
  | m :: ms' =>
      if Point_eqb p (getPosition (body m)) then Some i
      else firstMonsterAt p ms' (S i)
  end.

Definition handleInput (fuel : nat) (ch : Key) (g : Game) : Result :=
  match ch with
  | KeyQuit => Quit
  | KeyUp => Running (updateEntityPosition g ThePlayer 0 (-1))
  | KeyDown => Running (updateEntityPosition g ThePlayer 0 1)
  | KeyLeft => Running (updateEntityPosition g ThePlayer (-1) 0)
  | KeyRight => Running (updateEntityPosition g ThePlayer 1 0)
  | KeySpace =>
      match firstMonsterAt (getPosition (pbody (player g))) (monsters g) 0 with
      | Some i => fight fuel g ThePlayer (TheMonster i)
      | None => Running g
      end
  | KeyOther => Running g
  end.

(** One pass through the body of the loop of [Game::run]. *)
Definition turn (fuel : nat) (ch : Key) (g : Game) : Result :=
  match handleInput fuel ch g with
  | Running g1 =>
      match updatePositions fuel g1 with
      | Running g2 => Running (if isLevelComplete g2 then loadLevel g2 else g2)
      | r => r
      end
  | r => r
  end.

(** [while (!isGameOver())] over the keys the player types; it gives the
    game reached once they are used up. *)
Fixpoint runLoop (fuel : nat) (keys : list Key) (g : Game) : Result :=
  if isGameOver g then Running g
  else
    match keys with
    | [] => Running g
    | ch :: keys' =>
        match turn fuel ch g with
        | Running g' => runLoop fuel keys' g'
        | r => r
        end
    end.

(** [init()] loads the first level, then the loop runs. *)
Definition run (fuel : nat) (keys : list Key) (g : Game) : Result :=
  runLoop fuel keys (loadLevel g).

End Level.

(** ** The monster update, one monster at a time

    What the loop body of [updatePositions] does to the monster it visits,
    read off the player and the map, which no monster move changes. *)

Definition stepMonster (p : Player) (mp : Map) (m : Monster) : Monster :=
  setBody m (moveOrRevert mp (body m) (monsterStep p m).1 (monsterStep p m).2).

Definition stepThreads (p : Player) (m : Monster) : list nat :=
  if isOrc m
     && (isPathEmpty m
         || distance_lt (getPosition (body m)) (getPosition (pbody p)) 8)
  then [self m] else [].

(** The monster stands on the player's cell once it has made its step. *)
Definition reachesPlayer (p : Player) (mp : Map) (m : Monster) : bool :=
  Point_eqb (getPosition (pbody p)) (getPosition (body (stepMonster p mp m))).

(** The game once the monsters [visited], the front of the roster, have
    made their step and [rest] has not been looked at. *)
Definition afterSteps (g : Game) (visited rest : list Monster) : Game :=
  mkGame (level g) (player g) (gameMap g)
         (List.map (stepMonster (player g) (gameMap g)) visited ++ rest)
         (rng g) (nextAddress g)
         (threads g ++ List.concat (List.map (stepThreads (player g)) visited)).

(** The species of a roster of [count] monsters, in the order they are
    created. *)
Definition population (count : Z) : list Species :=
  repeat Goblin (Z.to_nat (Z.quot count 2))
  ++ repeat Orc (Z.to_nat (Z.quot count 3))
  ++ repeat Troll (Z.to_nat (Z.quot count 6))
  ++ repeat Dragon
       (Z.to_nat (count - Z.quot count 2 - Z.quot count 3 - Z.quot count 6)).

(** The level a result carries is [l], when the game goes on. *)
Definition atLevel (l : Z) (r : Result) : Prop :=
  match r with
  | Running g => level g = l
  | _ => True
  end.

(** [Game::Game()]: [int level{}] starts the counter at zero and the roster
    is empty; the map and the player are built by constructors that are not
    part of the sources. *)
Definition newGame (mp : Map) (p : Player) (r : Rng) : Game :=
  mkGame 0 p mp [] r 0 [].

(** ** Measures of the exchange loop *)

(** The rolls of the defender that land among the next [n] rounds: the
    second roll of each round. *)
Fixpoint defenderHits (r : Rng) (n : nat) : Z :=
  match n with
  | O => 0
  | S n' =>
      (if lands (rseq r (S (rcalls r))) then 1 else 0)
      + defenderHits (mkRng (rseq r) (S (S (rcalls r)))) n'
  end.

(** The passes the [while] loop makes from [s] before it exits or the fuel
    is used up. *)
Fixpoint roundsPlayed (fuel : nat) (s : Fight) : nat :=
  if isAlive (attacker s) && isAlive (defender s) then
    match fuel with
    | O => O
    | S fuel' => S (roundsPlayed fuel' (fightRound s))
    end
  else O.

(** ** Invariants of the roster *)

Definition aliveMonster (m : Monster) : Prop := isAlive (body m) = true.

(** The monster stands on a cell that [free] reports free. *)
Definition onFreeCell (free : Point -> bool) (m : Monster) : Prop :=
  free (getPosition (body m)) = true.

(** What the monster update leaves as it was on the way from [g] to [g']. *)
Definition updateKeeps (g g' : Game) : Prop :=
  level g' = level g
  /\ getPosition (pbody (player g')) = getPosition (pbody (player g))
  /\ getAttack (pbody (player g')) = getAttack (pbody (player g))
  /\ freeCell (gameMap g') = freeCell (gameMap g)
  /\ startCell (gameMap g') = startCell (gameMap g)
  /\ endCell (gameMap g') = endCell (gameMap g)
  /\ (length (monsters g') <= length (monsters g))%nat
  /\ (exists started : list nat, threads g' = threads g ++ started)
  /\ (Forall aliveMonster (monsters g) -> Forall aliveMonster (monsters g'))
  /\ (Forall (onFreeCell (freeCell (gameMap g))) (monsters g) ->
      Forall (onFreeCell (freeCell (gameMap g))) (monsters g')).

(** What [initalizeMonsters] builds in a monster: an object made after the
    allocator stood at [oldNext], with no path and the health and attack of
    its species. *)
Definition freshMonster (baseHealth baseAttack : Species -> Z) (oldNext : nat)
           (m : Monster) : Prop :=
  (oldNext <= self m)%nat
  /\ path m = []
  /\ getHealth (body m) = baseHealth (species m)
  /\ getAttack (body m) = baseAttack (species m).

(** The player and every monster of the roster are alive. *)
Definition healthy (g : Game) : Prop :=
  isAlive (pbody (player g)) = true /\ Forall aliveMonster (monsters g).

(** ** Sample data *)

Definition anEntity (hp att : Z) : Entity :=
  mkEntity (mkPoint 0 0) (mkPoint 0 0) hp att (mkRepresetiation 0 0).

(** A generator whose every roll is [v]. *)
Definition constantRng (v : Z) : Rng := mkRng (fun _ => v) 0.

Definition aPlayer (x y hp att : Z) : Player :=
  mkPlayer (mkEntity (mkPoint x y) (mkPoint 0 0) hp att (mkRepresetiation 0 0)) 0.

Definition aMonster (sp : Species) (addr : nat) (x y hp att : Z) : Monster :=
  mkMonster sp addr
            (mkEntity (mkPoint x y) (mkPoint 0 0) hp att (mkRepresetiation 0 0)) [].

(** A map with every cell free, and one with a single blocked cell. *)
Definition openMap : Map :=
  mkMap (fun _ => true) (mkPoint 0 0) (mkPoint 50 50) []
        (fun n => mkPoint (Z.of_nat n) 0) 0.

Definition wallMap (wall : Point) : Map :=
  mkMap (fun p => negb (Point_eqb p wall)) (mkPoint 0 0) (mkPoint 50 50) []
        (fun n => mkPoint (Z.of_nat n) 0) 0.

(** The player at the origin with a roster around it; every roll lands. *)
Definition aGame (mp : Map) (ms : list Monster) : Game :=
  mkGame 0 (aPlayer 0 0 100 10) mp ms (constantRng 1) (length ms) [].

Definition nearGoblin : Monster := aMonster Goblin 0 1 0 5 1.
Definition farGoblin : Monster := aMonster Goblin 1 20 20 5 1.

(** A goblin next to the player and one far away. *)
Definition duelGame : Game := aGame openMap [nearGoblin; farGoblin].

(** Two goblins that do not reach the player this turn. *)
Definition calmGame : Game := aGame openMap [aMonster Goblin 0 5 0 5 1; farGoblin].

(** An Orc of health 5 next to the player. *)
Definition orcGame : Game := aGame openMap [aMonster Orc 0 1 0 5 1].

(** The player with a blocked cell to its right. *)
Definition walledGame : Game := aGame (wallMap (mkPoint 1 0)) [].

(** A fight of three rounds when every roll lands. *)
Definition shortFight : Fight :=
  mkFight (anEntity 20 4) (anEntity 10 1) [Attacks] (constantRng 1).

(** An Orc with an empty path, far from the player. *)
Definition farOrcGame : Game := aGame openMap [aMonster Orc 0 30 30 5 1].

(** An Orc with an empty path among goblins. *)
Definition mixedGame : Game :=
  aGame openMap [nearGoblin; aMonster Orc 1 30 30 5 1; aMonster Goblin 2 9 9 5 1].

(** * Properties *)

(** ** The exchange loop *)

Lemma fightRound_rng (s : Fight) :
  frng (fightRound s) = mkRng (rseq (frng s)) (S (S (rcalls (frng s)))).
Proof. reflexivity. Qed.



Lemma fightLoop_exit (fuel : nat) (s s' : Fight) :
  fightLoop fuel s = Some s' ->
  isAlive (attacker s') && isAlive (defender s') = false.
Proof.
  revert s; induction fuel as [|fuel IH]; intros s; simpl;
    destruct (isAlive (attacker s) && isAlive (defender s)) eqn:E;
    try discriminate; try (intros [= <-]; exact E).
  apply IH.
Qed.




(** The loop has no bound of its own: while no roll lands, no amount of
    fuel sees it end. *)
Lemma fightLoop_all_miss (fuel : nat) (s : Fight) :
  (forall k, lands (rseq (frng s) k) = false) ->
  isAlive (attacker s) && isAlive (defender s) = true ->
  fightLoop fuel s = None.
Proof.
  revert s; induction fuel as [|fuel IH]; intros s Hmiss Halive; simpl;
    rewrite Halive; [reflexivity|].
  apply IH.
  - intros k. rewrite fightRound_rng. simpl. apply Hmiss.
  - unfold fightRound; simpl. rewrite !Hmiss. exact Halive.
Qed.

(** C9: a round always makes both rolls, and when the attacker's blow has
    brought the defender to zero health or below, a landing counter-roll
    still takes the defender's full attack off the attacker's health. *)
Theorem dead_defender_strikes_back (s : Fight) :
  lands (rseq (frng s) (rcalls (frng s))) = true ->
  getHealth (defender s) <= getAttack (attacker s) ->
  lands (rseq (frng s) (S (rcalls (frng s)))) = true ->
  rcalls (frng (fightRound s)) = S (S (rcalls (frng s)))
  /\ isAlive (defender (fightRound s)) = false
  /\ getHealth (attacker (fightRound s))
     = getHealth (attacker s) - getAttack (defender s).
Proof.
  intros H1 Hkill H2. unfold fightRound; simpl. rewrite H1, H2. simpl.
  repeat split.
  - unfold isAlive, getHealth, getAttack in *. simpl. apply Z.ltb_ge. lia.
Qed.

Lemma dead_defender_strikes_back_witness :
  rcalls (frng (fightRound (mkFight (anEntity 20 4) (anEntity 3 7) [Attacks]
                                    (constantRng 1)))) = 2%nat
  /\ isAlive (defender (fightRound (mkFight (anEntity 20 4) (anEntity 3 7)
                                             [Attacks] (constantRng 1)))) = false
  /\ getHealth (attacker (fightRound (mkFight (anEntity 20 4) (anEntity 3 7)
                                               [Attacks] (constantRng 1))))
     = 20 - 7.
Proof.
  apply (dead_defender_strikes_back
           (mkFight (anEntity 20 4) (anEntity 3 7) [Attacks] (constantRng 1)));
    vm_compute; solve [reflexivity | discriminate].
Defined.

(** ** Movement *)

Lemma getEntity_detach (g : Game) (orc : nat) (r : EntityRef) :
  getEntity (detach g orc) r = getEntity g r.
Proof. destruct r; reflexivity. Qed.

Lemma getEntity_setEntity (g : Game) (r : EntityRef) (e e' : Entity) :
  getEntity g r = Some e -> getEntity (setEntity g r e') r = Some e'.
Proof.
  destruct r as [|i]; simpl; [reflexivity|].
  rewrite list_lookup_alter_eq. destruct (monsters g !! i); simpl; [reflexivity|discriminate].
Qed.

Lemma moveOrRevert_position (mp : Map) (e : Entity) (dx dy : Z) :
  getPosition (moveOrRevert mp e dx dy)
  = if isPositionFree mp (offset (getPosition e) dx dy)
    then offset (getPosition e) dx dy else getPosition e.
Proof.
  unfold moveOrRevert, move, setPosition, getPosition; simpl.
  destruct (isPositionFree mp (offset (position e) dx dy)); reflexivity.
Qed.

(** C2: whatever entity the reference names, player or monster, after
    [updateEntityPosition] it stands on the offset cell when that cell is
    free on the map and on its old cell when it is not. *)
Theorem updateEntityPosition_moves_or_reverts
  (g : Game) (r : EntityRef) (e : Entity) (dx dy : Z) :
  getEntity g r = Some e ->
  getPosition <$> getEntity (updateEntityPosition g r dx dy) r
  = Some (if isPositionFree (gameMap g) (offset (getPosition e) dx dy)
          then offset (getPosition e) dx dy else getPosition e).
Proof.
  intros He. unfold updateEntityPosition.
  destruct (pathThread g r) as [orc|].
  - rewrite getEntity_detach, He.
    rewrite (getEntity_setEntity _ r e) by (rewrite getEntity_detach; exact He).
    simpl. rewrite moveOrRevert_position. reflexivity.
  - rewrite He. rewrite (getEntity_setEntity _ r e) by exact He.
    simpl. rewrite moveOrRevert_position. reflexivity.
Qed.

Lemma updateEntityPosition_moves_or_reverts_witness :
  getPosition <$> getEntity (updateEntityPosition walledGame ThePlayer 1 0) ThePlayer
  = Some (if isPositionFree (gameMap walledGame) (offset (mkPoint 0 0) 1 0)
          then offset (mkPoint 0 0) 1 0 else mkPoint 0 0)
  /\ getPosition <$> getEntity (updateEntityPosition walledGame ThePlayer 1 0) ThePlayer
     = Some (mkPoint 0 0).
Proof.
  split.
  - apply (updateEntityPosition_moves_or_reverts walledGame ThePlayer
             (pbody (player walledGame)) 1 0). reflexivity.
  - reflexivity.
Defined.

(** ** The monster update *)

Lemma updateEntityPosition_monster
  (g : Game) (front : list Monster) (m : Monster) (rest : list Monster) (dx dy : Z) :
  monsters g = front ++ m :: rest ->
  updateEntityPosition g (TheMonster (length front)) dx dy
  = mkGame (level g) (player g) (gameMap g)
           (front ++ setBody m (moveOrRevert (gameMap g) (body m) dx dy) :: rest)
           (rng g) (nextAddress g) (threads g ++ stepThreads (player g) m).
Proof.
  intros Hms.
  assert (monsters g !! length front = Some m) as Hm
      by (rewrite Hms; apply list_lookup_middle; reflexivity).
  unfold updateEntityPosition, pathThread, stepThreads. rewrite Hm.
  destruct (isOrc m && _); simpl; rewrite Hm; simpl;
    unfold setMonsters, detach; simpl; rewrite Hms;
    rewrite alter_app_r_alt by lia; rewrite Nat.sub_diag; simpl;
    rewrite ?app_nil_r; reflexivity.
Qed.

Lemma update_visits_front (fuel : nat) (visit : list Monster) :
  forall (front rest : list Monster) (g : Game),
    monsters g = front ++ visit ++ rest ->
    Forall (fun m => reachesPlayer (player g) (gameMap g) m = false) visit ->
    updatePositionsFrom fuel (length visit + length rest) (length front) g
    = updatePositionsFrom fuel (length rest) (length front + length visit)
        (mkGame (level g) (player g) (gameMap g)
           (front ++ List.map (stepMonster (player g) (gameMap g)) visit ++ rest)
           (rng g) (nextAddress g)
           (threads g ++ List.concat (List.map (stepThreads (player g)) visit))).
Proof.
  induction visit as [|m visit IH]; intros front rest g Hms Hfar.
  - simpl in *. rewrite Nat.add_0_r, app_nil_r. rewrite <- Hms. destruct g; reflexivity.
  - apply Forall_cons in Hfar as [Hm Hfar]. simpl in Hms.
    pose proof (updateEntityPosition_monster g front m (visit ++ rest)) as Hup.
    cbn [length Nat.add updatePositionsFrom].
    rewrite Hms at 1. rewrite list_lookup_middle by reflexivity.
    destruct (monsterStep (player g) m) as [dx dy] eqn:Estep.
    rewrite (Hup dx dy Hms).
    assert (setBody m (moveOrRevert (gameMap g) (body m) dx dy)
            = stepMonster (player g) (gameMap g) m) as ->
        by (unfold stepMonster; rewrite Estep; reflexivity).
    unfold onPlayer. cbn [monsters player].
    rewrite list_lookup_middle by reflexivity.
    unfold reachesPlayer in Hm. rewrite Hm.
    specialize (IH (front ++ [stepMonster (player g) (gameMap g) m]) rest
                   (mkGame (level g) (player g) (gameMap g)
                      (front ++ stepMonster (player g) (gameMap g) m :: visit ++ rest)
                      (rng g) (nextAddress g)
                      (threads g ++ stepThreads (player g) m))).
    cbn [monsters player gameMap level rng nextAddress threads] in IH.
    rewrite length_app in IH. cbn [length] in IH.
    replace (length front + 1)%nat with (S (length front)) in IH by lia.
    rewrite IH; [|rewrite <- app_assoc; reflexivity|exact Hfar].
    replace (S (length front) + length visit)%nat
      with (length front + S (length visit))%nat by lia.
    cbn [List.map List.concat].
    rewrite <- !app_assoc. reflexivity.
Qed.

Lemma updatePositions_front (fuel : nat) (g : Game) (visit rest : list Monster) :
  monsters g = visit ++ rest ->
  Forall (fun m => reachesPlayer (player g) (gameMap g) m = false) visit ->
  updatePositions fuel g
  = updatePositionsFrom fuel (length rest) (length visit) (afterSteps g visit rest).
Proof.
  intros Hms Hfar. unfold updatePositions. rewrite Hms at 1. rewrite length_app.
  exact (update_visits_front fuel visit [] rest g Hms Hfar).
Qed.

Lemma quot_abs_sgn (d : Z) :
  (if negb (d =? 0) then Z.quot d (Z.abs d) else d) = Z.sgn d.
Proof.
  destruct d as [|p|p]; [reflexivity| |]; cbn [Z.eqb negb Z.abs Z.sgn].
  - apply Z.quot_same. discriminate.
  - change (Z.neg p) with (- Z.pos p). rewrite Z.quot_opp_l by discriminate.
    rewrite Z.quot_same by discriminate. reflexivity.
Qed.

Lemma monsterStep_sgn (p : Player) (m : Monster) :
  monsterStep p m
  = if distanceSq (getPosition (pbody p)) (getPosition (body m)) <=? 100
    then (Z.sgn (px (getPosition (pbody p)) - px (getPosition (body m))),
          Z.sgn (py (getPosition (pbody p)) - py (getPosition (body m))))
    else (1, 1).
Proof.
  unfold monsterStep, areEntitiesInVicinity, distance_le.
  change (10 * 10) with 100.
  destruct (distanceSq _ _ <=? 100); [|reflexivity].
  rewrite !quot_abs_sgn. reflexivity.
Qed.

Lemma fight_monster_roster
  (fuel : nat) (g g' : Game) (front : list Monster) (m : Monster) (rest : list Monster) :
  monsters g = front ++ m :: rest ->
  fight fuel g (TheMonster (length front)) ThePlayer = Running g' ->
  exists a : Entity,
    monsters g'
    = List.filter (fun x => isAlive (body x)) (front ++ [setBody m a])
      ++ List.filter (fun x => isAlive (body x)) rest.
Proof.
  intros Hms. unfold fight. cbn [getEntity sameEntity erased]. rewrite Hms at 1.
  rewrite list_lookup_middle by reflexivity. cbn [fmap option_fmap option_map].
  destruct (fightLoop fuel _) as [s|]; [|discriminate].
  destruct (negb _); [discriminate|]. intros [= <-]. exists (attacker s).
  cbn. rewrite Hms. rewrite alter_app_r_alt by lia. rewrite Nat.sub_diag.
  cbn [alter list_alter]. rewrite <- List.filter_app, <- app_assoc. reflexivity.
Qed.

(** C10: a call of [updatePositions] runs at most one fight.  When no
    monster of the roster reaches the player's cell, it is the moves of all
    monsters and no fight.  When the monster [m] is the first of the roster
    to reach the player's cell, it is the moves of the monsters up to [m]
    followed by one fight, of [m] against the player, on a roster whose
    later part [rest] is as it was; and when the game goes on, the roster
    still ends with [rest] as it was (less its dead), unmoved and unhurt. *)
Theorem updatePositions_one_fight (fuel : nat) (g : Game) :
  (Forall (fun x => reachesPlayer (player g) (gameMap g) x = false) (monsters g) ->
   updatePositions fuel g = Running (afterSteps g (monsters g) []))
  /\ forall (front : list Monster) (m : Monster) (rest : list Monster),
       monsters g = front ++ m :: rest ->
       Forall (fun x => reachesPlayer (player g) (gameMap g) x = false) front ->
       reachesPlayer (player g) (gameMap g) m = true ->
       updatePositions fuel g
       = fight fuel (afterSteps g (front ++ [m]) rest)
               (TheMonster (length front)) ThePlayer
       /\ forall g' : Game,
            updatePositions fuel g = Running g' ->
            exists survivors : list Monster,
              monsters g'
              = survivors ++ List.filter (fun x => isAlive (body x)) rest
              /\ (length survivors <= S (length front))%nat.
Proof.
  split.
  { intros Hfar.
    rewrite (updatePositions_front fuel g (monsters g) []);
      [reflexivity | rewrite app_nil_r; reflexivity | exact Hfar]. }
  intros front m rest.
  intros Hms Hfar Hm.
  assert (updatePositions fuel g
          = fight fuel (afterSteps g (front ++ [m]) rest)
                  (TheMonster (length front)) ThePlayer) as Hrun.
  { rewrite (updatePositions_front fuel g front (m :: rest) Hms Hfar).
    cbn [length updatePositionsFrom].
    set (front' := List.map (stepMonster (player g) (gameMap g)) front).
    assert (length front = length front') as Hlen
        by (unfold front'; rewrite length_map; reflexivity).
    assert (monsters (afterSteps g front (m :: rest)) = front' ++ m :: rest) as Hms'
        by reflexivity.
    rewrite Hms' at 1. rewrite list_lookup_middle by exact Hlen.
    destruct (monsterStep (player (afterSteps g front (m :: rest))) m)
      as [dx dy] eqn:Estep.
    assert (updateEntityPosition (afterSteps g front (m :: rest))
                                 (TheMonster (length front)) dx dy
            = afterSteps g (front ++ [m]) rest) as ->.
    { rewrite Hlen.
      rewrite (updateEntityPosition_monster _ front' m rest dx dy Hms').
      cbn [player gameMap afterSteps level rng nextAddress threads] in *.
      assert (setBody m (moveOrRevert (gameMap g) (body m) dx dy)
              = stepMonster (player g) (gameMap g) m) as ->
          by (unfold stepMonster; rewrite Estep; reflexivity).
      unfold front', afterSteps.
      rewrite !List.map_app, List.concat_app. cbn [List.map List.concat].
      rewrite <- !app_assoc, app_nil_r. reflexivity. }
    unfold onPlayer. cbn [afterSteps monsters player].
    rewrite List.map_app, <- app_assoc. cbn [List.map app].
    rewrite list_lookup_middle by (rewrite length_map; reflexivity).
    unfold reachesPlayer in Hm. rewrite Hm. reflexivity. }
  split; [exact Hrun|].
  intros g' Hg'. rewrite Hrun in Hg'.
  assert (monsters (afterSteps g (front ++ [m]) rest)
          = List.map (stepMonster (player g) (gameMap g)) front
            ++ stepMonster (player g) (gameMap g) m :: rest) as Hms'.
  { cbn [afterSteps monsters]. rewrite List.map_app, <- app_assoc. reflexivity. }
  assert (length front
          = length (List.map (stepMonster (player g) (gameMap g)) front)) as Hlen
      by (rewrite length_map; reflexivity).
  rewrite Hlen in Hg'.
  destruct (fight_monster_roster fuel _ g' _ _ _ Hms' Hg') as [a Ha].
  eexists. split; [exact Ha|].
  etransitivity; [apply List.filter_length_le|].
  rewrite length_app, length_map. cbn [length]. lia.
Qed.

Lemma updatePositions_one_fight_witness :
  updatePositions 5 duelGame
  = fight 5 (afterSteps duelGame ([] ++ [nearGoblin]) [farGoblin])
          (TheMonster 0) ThePlayer
  /\ forall g' : Game,
       updatePositions 5 duelGame = Running g' ->
       exists survivors : list Monster,
         monsters g'
         = survivors ++ List.filter (fun x => isAlive (body x)) [farGoblin]
         /\ (length survivors <= 1)%nat.
Proof.
  apply (proj2 (updatePositions_one_fight 5 duelGame) [] nearGoblin [farGoblin]).
  - reflexivity.
  - constructor.
  - reflexivity.
Defined.

Lemma updatePositions_stops_at
  (fuel : nat) (g : Game) (front : list Monster) (m : Monster) (rest : list Monster) :
  monsters g = front ++ m :: rest ->
  Forall (fun x => reachesPlayer (player g) (gameMap g) x = false) front ->
  reachesPlayer (player g) (gameMap g) m = true ->
  updatePositions fuel g
  = fight fuel (afterSteps g (front ++ [m]) rest) (TheMonster (length front)) ThePlayer.
Proof.
  intros Hms Hfar Hm.
  rewrite (updatePositions_front fuel g front (m :: rest) Hms Hfar).
  cbn [length updatePositionsFrom].
  set (front' := List.map (stepMonster (player g) (gameMap g)) front).
  assert (length front = length front') as Hlen
      by (unfold front'; rewrite length_map; reflexivity).
  assert (monsters (afterSteps g front (m :: rest)) = front' ++ m :: rest) as Hms'
      by reflexivity.
  rewrite Hms' at 1. rewrite list_lookup_middle by exact Hlen.
  destruct (monsterStep (player (afterSteps g front (m :: rest))) m)
    as [dx dy] eqn:Estep.
  assert (updateEntityPosition (afterSteps g front (m :: rest))
                               (TheMonster (length front)) dx dy
          = afterSteps g (front ++ [m]) rest) as ->.
  { rewrite Hlen.
    rewrite (updateEntityPosition_monster _ front' m rest dx dy Hms').
    cbn [player gameMap afterSteps level rng nextAddress threads] in *.
    assert (setBody m (moveOrRevert (gameMap g) (body m) dx dy)
            = stepMonster (player g) (gameMap g) m) as ->
        by (unfold stepMonster; rewrite Estep; reflexivity).
    unfold front', afterSteps.
    rewrite !List.map_app, List.concat_app. cbn [List.map List.concat].
    rewrite <- !app_assoc, app_nil_r. reflexivity. }
  unfold onPlayer. cbn [afterSteps monsters player].
  rewrite List.map_app, <- app_assoc. cbn [List.map app].
  rewrite list_lookup_middle by (rewrite length_map; reflexivity).
  unfold reachesPlayer in Hm. rewrite Hm. reflexivity.
Qed.

(** C6, as the loop behaves: the monsters are visited in roster order as
    long as none of them reaches the player's cell.  Each visited monster
    is handed to the movement resolver with the offset of [monsterStep]:
    the signs of the player-minus-monster differences when the monster is
    within 10 cells of the player, (1, 1) when it is not; it ends on the
    offset cell when that cell is free and stays put when it is not.  When
    no monster of the roster reaches the player, all of them are moved so.
    When the monster [m] is the first to reach the player, the update is
    the moves up to [m] and then the fight of [m] against the player, which
    ends the loop: the monsters [later] after [m] are not visited, and when
    the game goes on they are in the roster as they were (less the dead). *)
Theorem monsters_step_toward_player
  (fuel : nat) (g : Game) (visit rest : list Monster) :
  monsters g = visit ++ rest ->
  Forall (fun m => reachesPlayer (player g) (gameMap g) m = false) visit ->
  updatePositions fuel g
  = updatePositionsFrom fuel (length rest) (length visit) (afterSteps g visit rest)
  /\ (rest = [] -> updatePositions fuel g = Running (afterSteps g visit []))
  /\ (forall (m : Monster) (later : list Monster),
        rest = m :: later ->
        reachesPlayer (player g) (gameMap g) m = true ->
        updatePositions fuel g
        = fight fuel (afterSteps g (visit ++ [m]) later)
                (TheMonster (length visit)) ThePlayer
        /\ forall g' : Game,
             updatePositions fuel g = Running g' ->
             exists a : Entity,
               monsters g'
               = List.filter (fun x => isAlive (body x))
                   (List.map (stepMonster (player g) (gameMap g)) visit
                    ++ [setBody (stepMonster (player g) (gameMap g) m) a])
                 ++ List.filter (fun x => isAlive (body x)) later)
  /\ forall m : Monster,
       monsterStep (player g) m
       = (if distanceSq (getPosition (pbody (player g))) (getPosition (body m))
             <=? 100
          then (Z.sgn (px (getPosition (pbody (player g)))
                       - px (getPosition (body m))),
                Z.sgn (py (getPosition (pbody (player g)))
                       - py (getPosition (body m))))
          else (1, 1))
       /\ getPosition (body (stepMonster (player g) (gameMap g) m))
          = (if isPositionFree (gameMap g)
                  (offset (getPosition (body m))
                          (monsterStep (player g) m).1 (monsterStep (player g) m).2)
             then offset (getPosition (body m))
                         (monsterStep (player g) m).1 (monsterStep (player g) m).2
             else getPosition (body m)).
Proof.
  intros Hms Hfar.
  pose proof (updatePositions_front fuel g visit rest Hms Hfar) as Hrun.
  split; [exact Hrun|]. split; [|split].
  - intros ->. rewrite Hrun. reflexivity.
  - intros m later -> Hm.
    pose proof (updatePositions_stops_at fuel g visit m later Hms Hfar Hm) as Hstop.
    split; [exact Hstop|].
    intros g' Hg'. rewrite Hstop in Hg'.
    assert (monsters (afterSteps g (visit ++ [m]) later)
            = List.map (stepMonster (player g) (gameMap g)) visit
              ++ stepMonster (player g) (gameMap g) m :: later) as Hms'.
    { cbn [afterSteps monsters]. rewrite List.map_app, <- app_assoc. reflexivity. }
    assert (length visit
            = length (List.map (stepMonster (player g) (gameMap g)) visit)) as Hlen
        by (rewrite length_map; reflexivity).
    rewrite Hlen in Hg'.
    exact (fight_monster_roster fuel _ g' _ _ _ Hms' Hg').
  - intros m. split; [apply monsterStep_sgn|].
    unfold stepMonster. cbn [body setBody]. apply moveOrRevert_position.
Qed.

Lemma monsters_step_toward_player_witness :
  (updatePositions 5 calmGame = Running (afterSteps calmGame (monsters calmGame) [])
   /\ List.map (fun m => getPosition (body m))
               (monsters (afterSteps calmGame (monsters calmGame) []))
      = [mkPoint 4 0; mkPoint 21 21])
  /\ (updatePositions 5 duelGame
      = fight 5 (afterSteps duelGame ([] ++ [nearGoblin]) [farGoblin])
              (TheMonster 0) ThePlayer
      /\ forall g' : Game,
           updatePositions 5 duelGame = Running g' ->
           exists a : Entity,
             monsters g'
             = List.filter (fun x => isAlive (body x))
                 ([] ++ [setBody (stepMonster (player duelGame) (gameMap duelGame)
                                              nearGoblin) a])
               ++ List.filter (fun x => isAlive (body x)) [farGoblin]).
Proof.
  split.
  - split; [|reflexivity].
    apply (monsters_step_toward_player 5 calmGame (monsters calmGame) []);
      [reflexivity | repeat constructor | reflexivity].
  - apply (proj1 (proj2 (proj2 (monsters_step_toward_player 5 duelGame []
                                  [nearGoblin; farGoblin] eq_refl
                                  (Forall_nil_2 _))))
                 nearGoblin [farGoblin] eq_refl eq_refl).
Defined.

(** C6 as stated fails: in [duelGame] the first goblin reaches the player,
    the fight ends the loop, and the second goblin, more than 10 cells from
    the player and with its diagonal cell free, is still where it was. *)
Lemma later_monster_not_moved :
  areEntitiesInVicinity (pbody (player duelGame)) (body farGoblin) 10 = false
  /\ isPositionFree (gameMap duelGame)
                    (offset (getPosition (body farGoblin)) 1 1) = true
  /\ exists g' : Game,
       updatePositions 5 duelGame = Running g'
       /\ monsters g' = [farGoblin]
       /\ getPosition (body farGoblin) <> offset (getPosition (body farGoblin)) 1 1.
Proof.
  split; [reflexivity|]. split; [reflexivity|].
  eexists. split; [vm_compute; reflexivity|]. split; [reflexivity|].
  vm_compute. discriminate.
Qed.

(** ** Roster population *)

Section Population.

Variable baseHealth baseAttack : Species -> Z.
Variable glyph : Species -> Represetiation.

Local Abbreviation create := (createMonsterLoop baseHealth baseAttack glyph).

Lemma createMonsterLoop_roster (sp : Species) (n : nat) :
  forall g : Game,
    List.map species (monsters (create n sp g))
    = List.map species (monsters g) ++ repeat sp n
    /\ List.map (fun m => getPosition (body m)) (monsters (create n sp g))
       = List.map (fun m => getPosition (body m)) (monsters g)
         ++ List.map (freeCells (gameMap g)) (seq (freeCalls (gameMap g)) n)
    /\ freeCells (gameMap (create n sp g)) = freeCells (gameMap g)
    /\ freeCalls (gameMap (create n sp g)) = (freeCalls (gameMap g) + n)%nat.
Proof.
  induction n as [|n IH]; intros g.
  - cbn. rewrite !app_nil_r, Nat.add_0_r. repeat split.
  - cbn [createMonsterLoop randomFreePosition].
    match goal with |- context [create n sp ?g1] =>
      destruct (IH g1) as (Hsp & Hpos & Hcells & Hcalls) end.
    rewrite Hsp, Hpos, Hcells, Hcalls.
    cbn [pushMonster setMap monsters gameMap freeCells freeCalls].
    rewrite !List.map_app. cbn [List.map species body newMonster getPosition
                                position repeat seq].
    rewrite <- !app_assoc. repeat split. lia.
Qed.

(** C5: [initalizeMonsters] fills the emptied roster, in this order, with
    [count / 2] goblins, [count / 3] orcs, [count / 6] trolls and the rest
    of [count] as dragons (the divisions are those of [int], and a count
    that is not positive gives none), the monsters standing one by one on
    the cells [randomFreePosition] hands out; for 12 that is 6 goblins, 4
    orcs, 2 trolls and no dragon. *)
Theorem initalizeMonsters_population (count : Z) (g : Game) :
  List.map species (monsters (initalizeMonsters baseHealth baseAttack glyph count g))
  = population count
  /\ List.map (fun m => getPosition (body m))
              (monsters (initalizeMonsters baseHealth baseAttack glyph count g))
     = List.map (freeCells (gameMap g))
                (seq (freeCalls (gameMap g)) (length (population count)))
  /\ List.map species (monsters (initalizeMonsters baseHealth baseAttack glyph 12 g))
     = repeat Goblin 6 ++ repeat Orc 4 ++ repeat Troll 2 ++ repeat Dragon 0.
Proof.
  assert (forall c,
    List.map species (monsters (initalizeMonsters baseHealth baseAttack glyph c g))
    = population c
    /\ List.map (fun m => getPosition (body m))
                (monsters (initalizeMonsters baseHealth baseAttack glyph c g))
       = List.map (freeCells (gameMap g))
                  (seq (freeCalls (gameMap g)) (length (population c)))) as Hgen.
  { intros c. unfold initalizeMonsters, createMonster, population.
    set (a := Z.to_nat (Z.quot c 2)). set (b := Z.to_nat (Z.quot c 3)).
    set (t := Z.to_nat (Z.quot c 6)).
    set (d := Z.to_nat (c - Z.quot c 2 - Z.quot c 3 - Z.quot c 6)).
    set (g0 := setMonsters g []).
    destruct (createMonsterLoop_roster Goblin a g0) as (S1 & P1 & C1 & N1).
    destruct (createMonsterLoop_roster Orc b (create a Goblin g0))
      as (S2 & P2 & C2 & N2).
    destruct (createMonsterLoop_roster Troll t (create b Orc (create a Goblin g0)))
      as (S3 & P3 & C3 & N3).
    destruct (createMonsterLoop_roster Dragon d
                (create t Troll (create b Orc (create a Goblin g0))))
      as (S4 & P4 & C4 & N4).
    split.
    - rewrite S4, S3, S2, S1. cbn. rewrite <- !app_assoc. reflexivity.
    - rewrite P4, P3, P2, P1, C3, C2, C1, N3, N2, N1. cbn [g0 setMonsters monsters
        gameMap List.map app].
      rewrite !length_app, !repeat_length, !seq_app, !List.map_app.
      rewrite <- !app_assoc. reflexivity. }
  destruct (Hgen count) as [Hs Hp]. destruct (Hgen 12) as [H12 _].
  repeat split; assumption.
Qed.

End Population.

(** ** The level counter *)

Lemma updateEntityPosition_level (g : Game) (r : EntityRef) (dx dy : Z) :
  level (updateEntityPosition g r dx dy) = level g.
Proof.
  unfold updateEntityPosition.
  destruct (pathThread g r); destruct (getEntity _ r); destruct r; reflexivity.
Qed.

Lemma fight_level (fuel : nat) (g : Game) (a d : EntityRef) :
  atLevel (level g) (fight fuel g a d).
Proof.
  unfold fight.
  destruct (getEntity g a); [destruct (getEntity g d)|]; try reflexivity.
  destruct ((if sameEntity a d then soloLoop else fightLoop) fuel _); [|exact I].
  destruct (negb _); [exact I|]. destruct (erased _ d); [exact I|].
  destruct a, d; reflexivity.
Qed.

Lemma updatePositionsFrom_level (fuel todo : nat) :
  forall (i : nat) (g : Game), atLevel (level g) (updatePositionsFrom fuel todo i g).
Proof.
  induction todo as [|todo IH]; intros i g; cbn [updatePositionsFrom];
    [reflexivity|].
  destruct (monsters g !! i) as [m|]; [|reflexivity].
  destruct (monsterStep (player g) m) as [dx dy].
  rewrite <- (updateEntityPosition_level g (TheMonster i) dx dy).
  destruct (onPlayer _ i); [apply fight_level|apply IH].
Qed.

Example levelMonsterCount_at_0 : levelMonsterCount 12 0 = 12.
Proof. reflexivity. Qed.

Example levelMonsterCount_at_3 : levelMonsterCount 12 3 = 16.
Proof. reflexivity. Qed.

Section LevelCounter.

Variable monsterCount : Z.
Variable baseHealth baseAttack : Species -> Z.
Variable glyph : Species -> Represetiation.
Variable Map_loadLevel : Map -> Map.

Lemma createMonsterLoop_level (sp : Species) (n : nat) :
  forall g : Game,
    level (createMonsterLoop baseHealth baseAttack glyph n sp g) = level g.
Proof.
  induction n as [|n IH]; intros g; cbn [createMonsterLoop randomFreePosition];
    [reflexivity|].
  rewrite IH. reflexivity.
Qed.

Lemma loadLevel_level (g : Game) :
  level (loadLevel monsterCount baseHealth baseAttack glyph Map_loadLevel g)
  = level g.
Proof.
  unfold loadLevel, initalizeMonsters, createMonster.
  rewrite !createMonsterLoop_level. reflexivity.
Qed.

Lemma handleInput_level (fuel : nat) (ch : Key) (g : Game) :
  atLevel (level g) (handleInput fuel ch g).
Proof.
  destruct ch; cbn [handleInput atLevel];
    try apply updateEntityPosition_level; try reflexivity; try exact I.
  destruct (firstMonsterAt _ _ _); [apply fight_level|reflexivity].
Qed.

Lemma turn_level (fuel : nat) (ch : Key) (g : Game) :
  atLevel (level g)
    (turn monsterCount baseHealth baseAttack glyph Map_loadLevel fuel ch g).
Proof.
  unfold turn. pose proof (handleInput_level fuel ch g) as H1.
  destruct (handleInput fuel ch g) as [| | |g1]; try exact I.
  cbn [atLevel] in H1. rewrite <- H1.
  pose proof (updatePositionsFrom_level fuel (length (monsters g1)) 0 g1) as H2.
  unfold updatePositions.
  destruct (updatePositionsFrom fuel _ 0 g1) as [| | |g2]; try exact I.
  cbn [atLevel] in *. rewrite <- H2.
  destruct (isLevelComplete g2); [apply loadLevel_level|reflexivity].
Qed.

Lemma runLoop_level (fuel : nat) (keys : list Key) :
  forall g : Game,
    atLevel (level g)
      (runLoop monsterCount baseHealth baseAttack glyph Map_loadLevel fuel keys g).
Proof.
  induction keys as [|ch keys IH]; intros g; cbn [runLoop];
    destruct (isGameOver g); try reflexivity.
  pose proof (turn_level fuel ch g) as Ht.
  destruct (turn _ _ _ _ _ fuel ch g) as [| | |g']; try exact I.
  cbn [atLevel] in Ht. rewrite <- Ht. apply IH.
Qed.

(** C7, as the code stands: nothing ever assigns [level].  [loadLevel]
    leaves it as it was, so does every turn, level transitions included,
    and a whole run of a newly built game, whatever its length, is at level
    0; the count handed to [initalizeMonsters] is therefore the same at
    every transition. *)
Theorem level_never_advances
  (fuel : nat) (keys : list Key) (ch : Key) (g : Game)
  (mp : Map) (p : Player) (r : Rng) :
  level (loadLevel monsterCount baseHealth baseAttack glyph Map_loadLevel g)
  = level g
  /\ levelMonsterCount monsterCount
       (level (loadLevel monsterCount baseHealth baseAttack glyph Map_loadLevel g))
     = levelMonsterCount monsterCount (level g)
  /\ atLevel (level g)
       (turn monsterCount baseHealth baseAttack glyph Map_loadLevel fuel ch g)
  /\ atLevel 0
       (run monsterCount baseHealth baseAttack glyph Map_loadLevel fuel keys
            (newGame mp p r)).
Proof.
  split; [apply loadLevel_level|]. split; [rewrite loadLevel_level; reflexivity|].
  split; [apply turn_level|].
  unfold run.
  change 0 with (level (newGame mp p r)) at 1.
  rewrite <- (loadLevel_level (newGame mp p r)) at 1. apply runLoop_level.
Qed.

End LevelCounter.

(** ** The path thread *)

Lemma runPathThread_ignores_roster (g : Game) (orc : nat) (p : Point) (ps : list Point) :
  inRoster g orc = false ->
  runPathThread g orc (Some (p :: ps)) = WroteFreed orc (p :: ps).
Proof. intros H. unfold runPathThread. cbn. rewrite H. reflexivity. Qed.

(** C1, as the code stands: in [orcGame] the Orc steps onto the player and
    starts its path thread, loses the fight and is erased from the roster;
    the thread, finishing later with a path, passes its own check and
    writes the path to the address the roster no longer holds. *)
Theorem path_thread_outlives_orc :
  exists g' : Game,
    updatePositions 5 orcGame = Running g'
    /\ monsters g' = []
    /\ threads g' = [0%nat]
    /\ inRoster g' 0 = false
    /\ runPathThread g' 0 (Some [mkPoint 0 0]) = WroteFreed 0 [mkPoint 0 0].
Proof.
  eexists. split; [vm_compute; reflexivity|]. repeat split.
Qed.

(** * Further properties *)

(** ** The exchange loop, measured *)

Lemma fightRound_info (s : Fight) :
  exists l1 l2 : FightLine, fightInfo (fightRound s) = fightInfo s ++ [l1; l2].
Proof.
  unfold fightRound; simpl.
  destruct (lands (rseq (frng s) (rcalls (frng s))));
    destruct (lands (rseq (frng s) (S (rcalls (frng s)))));
    rewrite <- app_assoc; eauto.
Qed.

Lemma fightRound_attacker (s : Fight) :
  getHealth (attacker (fightRound s))
  = getHealth (attacker s)
    - (if lands (rseq (frng s) (S (rcalls (frng s))))
       then getAttack (defender s) else 0).
Proof.
  unfold fightRound; simpl.
  destruct (lands (rseq (frng s) (rcalls (frng s))));
    destruct (lands (rseq (frng s) (S (rcalls (frng s)))));
    unfold getHealth, getAttack; simpl; lia.
Qed.

Lemma fightRound_frame (s : Fight) :
  position (attacker (fightRound s)) = position (attacker s)
  /\ strength (attacker (fightRound s)) = strength (attacker s)
  /\ position (defender (fightRound s)) = position (defender s)
  /\ strength (defender (fightRound s)) = strength (defender s).
Proof.
  unfold fightRound; simpl.
  destruct (lands (rseq (frng s) (rcalls (frng s))));
    destruct (lands (rseq (frng s) (S (rcalls (frng s))))); repeat split.
Qed.

(** X1: a fight that ends has made two [rand()] calls and pushed two lines
    on the log in each of its rounds, no more and no fewer, and has kept the
    lines the log started with. *)
Theorem fightLoop_rolls_and_lines (fuel : nat) (s s' : Fight) :
  fightLoop fuel s = Some s' ->
  (roundsPlayed fuel s <= fuel)%nat
  /\ rseq (frng s') = rseq (frng s)
  /\ rcalls (frng s') = (rcalls (frng s) + 2 * roundsPlayed fuel s)%nat
  /\ exists lines : list FightLine,
       fightInfo s' = fightInfo s ++ lines
       /\ length lines = (2 * roundsPlayed fuel s)%nat.
Proof.
  revert s; induction fuel as [|fuel IH]; intros s; cbn [fightLoop roundsPlayed];
    destruct (isAlive (attacker s) && isAlive (defender s)); try discriminate.
  - intros [= <-]. repeat split; try lia. exists []. rewrite app_nil_r. split; reflexivity.
  - intros Hloop. destruct (IH _ Hloop) as (Hle & Hseq & Hcalls & lines & Hinfo & Hlen).
    destruct (fightRound_info s) as (l1 & l2 & Hround).
    rewrite fightRound_rng in Hseq, Hcalls. cbn [rseq rcalls] in Hseq, Hcalls.
    repeat split; try lia; try assumption.
    exists (l1 :: l2 :: lines). split.
    + rewrite Hinfo, Hround, <- app_assoc. reflexivity.
    + cbn [length]. lia.
  - intros [= <-]. repeat split; try lia. exists []. rewrite app_nil_r. split; reflexivity.
Qed.

Lemma fightLoop_rolls_and_lines_witness :
  exists s' : Fight,
    fightLoop 5 shortFight = Some s'
    /\ roundsPlayed 5 shortFight = 3%nat
    /\ rcalls (frng s') = 6%nat
    /\ length (fightInfo s') = 7%nat.
Proof.
  eexists. split; [reflexivity|].
  pose proof (fightLoop_rolls_and_lines 5 shortFight _ eq_refl)
    as (_ & _ & Hcalls & _).
  split; [reflexivity|]. split; [exact Hcalls | reflexivity].
Defined.



Lemma fightLoop_counter_hits (n : nat) (s : Fight) :
  0 < getAttack (defender s) ->
  getHealth (attacker s) <= defenderHits (frng s) n * getAttack (defender s) ->
  exists s', fightLoop n s = Some s'.
Proof.
  revert s; induction n as [|n IH]; intros s Hatt Hhits; simpl in *.
  - assert (isAlive (attacker s) = false) as ->.
    { unfold isAlive, getHealth in *. apply Z.ltb_ge. lia. }
    eauto.
  - destruct (isAlive (attacker s) && isAlive (defender s)); [|eauto].
    destruct (fightRound_frame s) as (_ & _ & _ & Fsd).
    apply IH.
    + unfold getAttack in *. rewrite Fsd. exact Hatt.
    + unfold getAttack in *.
      rewrite Fsd, fightRound_rng. fold (getAttack (defender s)).
      rewrite fightRound_attacker. unfold getAttack.
      destruct (lands (rseq (frng s) (S (rcalls (frng s))))); lia.
Qed.

(** X3: the loop also ends from the defender's side: with a positive attack
    of the defender, it has exited within [n] rounds as soon as enough of
    the defender's rolls among them land to use up the attacker's health. *)
Theorem fight_ends_when_counterblows_land (n : nat) (s : Fight) :
  0 < getAttack (defender s) ->
  getHealth (attacker s) <= defenderHits (frng s) n * getAttack (defender s) ->
  exists s', fightLoop n s = Some s'
             /\ (roundsPlayed n s <= n)%nat
             /\ isAlive (attacker s') && isAlive (defender s') = false.
Proof.
  intros Hatt Hhits.
  destruct (fightLoop_counter_hits n s Hatt Hhits) as [s' Hs'].
  exists s'. split; [exact Hs'|]. split; [|exact (fightLoop_exit n s s' Hs')].
  clear Hs' Hhits Hatt. revert s; induction n as [|n IH]; intros s;
    cbn [roundsPlayed]; destruct (isAlive (attacker s) && isAlive (defender s));
    try lia. specialize (IH (fightRound s)). lia.
Qed.

Lemma fight_ends_when_counterblows_land_witness :
  exists s', fightLoop 4 (mkFight (anEntity 3 1) (anEntity 50 1) [Attacks]
                                  (constantRng 1)) = Some s'
             /\ (roundsPlayed 4 (mkFight (anEntity 3 1) (anEntity 50 1) [Attacks]
                                         (constantRng 1)) <= 4)%nat
             /\ isAlive (attacker s') && isAlive (defender s') = false.
Proof.
  apply (fight_ends_when_counterblows_land 4
           (mkFight (anEntity 3 1) (anEntity 50 1) [Attacks] (constantRng 1)));
    vm_compute; [reflexivity | discriminate].
Defined.

(** ** The fight and its bookkeeping *)

Lemma filter_alive_Forall (ms : list Monster) :
  Forall (fun m => isAlive (body m) = true)
         (List.filter (fun m => isAlive (body m)) ms).
Proof.
  apply List.Forall_forall. intros m Hm. apply List.filter_In in Hm. tauto.
Qed.

(** X4: when [fight] is called on two entities of the game and the game
    goes on afterwards, the player is alive and has gained exactly 10
    experience, every monster left in the roster is alive, and the roster
    has not grown. *)
Theorem fight_survivors (fuel : nat) (g g' : Game) (a d : EntityRef) :
  is_Some (getEntity g a) ->
  is_Some (getEntity g d) ->
  fight fuel g a d = Running g' ->
  isAlive (pbody (player g')) = true
  /\ exp (player g') = exp (player g) + 10
  /\ Forall (fun m => isAlive (body m) = true) (monsters g')
  /\ (length (monsters g') <= length (monsters g))%nat.
Proof.
  intros [ea Ha] [ed Hd]. unfold fight. rewrite Ha, Hd.
  destruct ((if sameEntity a d then soloLoop else fightLoop) fuel _) as [s|];
    [|discriminate].
  destruct (negb (isAlive _)) eqn:Halive; [discriminate|].
  destruct (erased _ d); [discriminate|].
  apply negb_false_iff in Halive. intros [= <-].
  split; [|split; [|split]].
  - destruct a, d; exact Halive.
  - destruct a, d; reflexivity.
  - destruct a, d; apply filter_alive_Forall.
  - destruct a, d; cbn; (etransitivity; [apply List.filter_length_le|]);
      rewrite ?length_alter; reflexivity.
Qed.

Lemma fight_survivors_witness :
  exists g' : Game,
    fight 5 duelGame (TheMonster 0) ThePlayer = Running g'
    /\ isAlive (pbody (player g')) = true
    /\ exp (player g') = exp (player duelGame) + 10
    /\ Forall (fun m => isAlive (body m) = true) (monsters g')
    /\ (length (monsters g') <= length (monsters duelGame))%nat.
Proof.
  eexists. split; [vm_compute; reflexivity|].
  apply (fight_survivors 5 duelGame _ (TheMonster 0) ThePlayer);
    [eexists; reflexivity | eexists; reflexivity | vm_compute; reflexivity].
Defined.

(** X5: when a monster is the attacker, as in [updatePositions], and the
    game goes on afterwards, that monster is dead and gone from the roster,
    the other monsters are kept as they were (less the dead), the player,
    who was the defender, is alive, and the log handed to the map still
    ends with the line that says the defender is dead. *)
Theorem monster_attack_survived
  (fuel : nat) (g g' : Game) (front : list Monster) (m : Monster) (rest : list Monster) :
  monsters g = front ++ m :: rest ->
  fight fuel g (TheMonster (length front)) ThePlayer = Running g' ->
  monsters g'
  = List.filter (fun x => isAlive (body x)) front
    ++ List.filter (fun x => isAlive (body x)) rest
  /\ isAlive (pbody (player g')) = true
  /\ last (shownFightInfo (gameMap g')) = Some (IsDead Defender).
Proof.
  intros Hms. unfold fight. cbn [getEntity sameEntity erased]. rewrite Hms at 1.
  rewrite list_lookup_middle by reflexivity. cbn [fmap option_fmap option_map].
  destruct (fightLoop fuel _) as [s|] eqn:Hloop; [|discriminate].
  destruct (negb (isAlive _)) eqn:Halive; [discriminate|].
  apply negb_false_iff in Halive. cbn in Halive. intros [= <-].
  pose proof (fightLoop_exit _ _ _ Hloop) as Hexit.
  rewrite Halive, andb_true_r in Hexit.
  split; [|split].
  - cbn. rewrite Hms. rewrite alter_app_r_alt by lia. rewrite Nat.sub_diag.
    cbn [alter list_alter]. rewrite List.filter_app. cbn [List.filter body setBody].
    rewrite Hexit. reflexivity.
  - exact Halive.
  - cbn. apply last_snoc.
Qed.

Lemma monster_attack_survived_witness :
  exists g' : Game,
    fight 5 duelGame (TheMonster 0) ThePlayer = Running g'
    /\ monsters g' = [farGoblin]
    /\ isAlive (pbody (player g')) = true
    /\ last (shownFightInfo (gameMap g')) = Some (IsDead Defender).
Proof.
  eexists. split; [vm_compute; reflexivity|].
  apply (monster_attack_survived 5 duelGame _ [] nearGoblin [farGoblin]);
    [reflexivity | vm_compute; reflexivity].
Defined.

(** ** What a move leaves alone *)

Lemma getEntity_setEntity_ne (g : Game) (r r' : EntityRef) (e : Entity) :
  r' <> r -> getEntity (setEntity g r e) r' = getEntity g r'.
Proof.
  intros Hne. destruct r as [|i], r' as [|j]; cbn; try reflexivity;
    try congruence.
  rewrite list_lookup_alter_ne by congruence. reflexivity.
Qed.

Lemma updateEntityPosition_keeps (g : Game) (r : EntityRef) (dx dy : Z) :
  level (updateEntityPosition g r dx dy) = level g
  /\ gameMap (updateEntityPosition g r dx dy) = gameMap g
  /\ rng (updateEntityPosition g r dx dy) = rng g
  /\ exp (player (updateEntityPosition g r dx dy)) = exp (player g)
  /\ length (monsters (updateEntityPosition g r dx dy)) = length (monsters g)
  /\ (forall r' : EntityRef,
        r' <> r -> getEntity (updateEntityPosition g r dx dy) r' = getEntity g r')
  /\ health <$> getEntity (updateEntityPosition g r dx dy) r
     = health <$> getEntity g r
  /\ strength <$> getEntity (updateEntityPosition g r dx dy) r
     = strength <$> getEntity g r
  /\ velocity <$> getEntity (updateEntityPosition g r dx dy) r
     = velocity <$> getEntity g r
  /\ representation <$> getEntity (updateEntityPosition g r dx dy) r
     = representation <$> getEntity g r.
Proof.
  unfold updateEntityPosition.
  set (g1 := match pathThread g r with Some orc => detach g orc | None => g end).
  assert (level g1 = level g /\ gameMap g1 = gameMap g /\ rng g1 = rng g
          /\ player g1 = player g /\ monsters g1 = monsters g) as (Hl & Hm & Hr & Hp & Hms)
      by (unfold g1; destruct (pathThread g r); repeat split).
  assert (forall r', getEntity g1 r' = getEntity g r') as Hget
      by (unfold g1; destruct (pathThread g r); intros r';
          rewrite ?getEntity_detach; reflexivity).
  clearbody g1.
  destruct (getEntity g1 r) as [e|] eqn:He.
  - assert (forall f : Entity -> Entity,
              getEntity (setEntity g1 r (f e)) r = Some (f e)) as Hset
        by (intros f; apply (getEntity_setEntity g1 r e); exact He).
    rewrite <- (Hget r), He.
    unfold moveOrRevert, move, setPosition, getPosition.
    destruct (negb _);
      (split; [|split; [|split; [|split; [|split; [|split]]]]];
       [destruct r; exact Hl
       |destruct r; exact Hm
       |destruct r; exact Hr
       |destruct r; cbn; rewrite ?Hp; reflexivity
       |destruct r; cbn; rewrite ?length_alter, Hms; reflexivity
       |intros r' Hne; rewrite getEntity_setEntity_ne by exact Hne; apply Hget
       |]);
      (rewrite (getEntity_setEntity g1 r e) by exact He); repeat split.
  - rewrite <- (Hget r), He. rewrite Hl, Hm, Hr, Hp, Hms. repeat split.
    intros r' _. apply Hget.
Qed.

Lemma map_alter_same {A B : Type} (h : A -> B) (f : A -> A) (l : list A) :
  (forall x, h (f x) = h x) ->
  forall i : nat, List.map h (alter f i l) = List.map h l.
Proof.
  intros Hf. induction l as [|x l IH]; intros [|i]; cbn; try reflexivity.
  - rewrite Hf. reflexivity.
  - f_equal. apply IH.
Qed.

Lemma updateEntityPosition_identity (g : Game) (r : EntityRef) (dx dy : Z) :
  List.map species (monsters (updateEntityPosition g r dx dy))
  = List.map species (monsters g)
  /\ List.map self (monsters (updateEntityPosition g r dx dy))
     = List.map self (monsters g).
Proof.
  unfold updateEntityPosition.
  set (g1 := match pathThread g r with Some orc => detach g orc | None => g end).
  assert (monsters g1 = monsters g) as Hms
      by (unfold g1; destruct (pathThread g r); reflexivity).
  clearbody g1.
  destruct (getEntity g1 r) as [e|]; [|rewrite Hms; split; reflexivity].
  destruct r as [|i]; cbn [setEntity setPlayer setMonsters monsters];
    rewrite ?Hms; [split; reflexivity|].
  split; apply map_alter_same; reflexivity.
Qed.

(** X6: [updateEntityPosition] leaves the level, the map, the generator,
    the player's experience and the size of the roster as they were,
    leaves every other entity untouched, leaves the entity it moves its
    health, attack, velocity and glyph, and leaves every monster its
    species and its address. *)
Theorem updateEntityPosition_frame (g : Game) (r : EntityRef) (dx dy : Z) :
  level (updateEntityPosition g r dx dy) = level g
  /\ gameMap (updateEntityPosition g r dx dy) = gameMap g
  /\ rng (updateEntityPosition g r dx dy) = rng g
  /\ exp (player (updateEntityPosition g r dx dy)) = exp (player g)
  /\ length (monsters (updateEntityPosition g r dx dy)) = length (monsters g)
  /\ (forall r' : EntityRef,
        r' <> r -> getEntity (updateEntityPosition g r dx dy) r' = getEntity g r')
  /\ health <$> getEntity (updateEntityPosition g r dx dy) r
     = health <$> getEntity g r
  /\ strength <$> getEntity (updateEntityPosition g r dx dy) r
     = strength <$> getEntity g r
  /\ velocity <$> getEntity (updateEntityPosition g r dx dy) r
     = velocity <$> getEntity g r
  /\ representation <$> getEntity (updateEntityPosition g r dx dy) r
     = representation <$> getEntity g r
  /\ List.map species (monsters (updateEntityPosition g r dx dy))
     = List.map species (monsters g)
  /\ List.map self (monsters (updateEntityPosition g r dx dy))
     = List.map self (monsters g).
Proof.
  destruct (updateEntityPosition_keeps g r dx dy)
    as (H1 & H2 & H3 & H4 & H5 & H6 & H7 & H8 & H9 & H10).
  destruct (updateEntityPosition_identity g r dx dy) as (H11 & H12).
  repeat split; assumption.
Qed.

(** X7: an entity that stands on a free cell of the map still stands on a
    free cell after [updateEntityPosition], whatever the offset. *)
Theorem updateEntityPosition_keeps_free
  (g : Game) (r : EntityRef) (e : Entity) (dx dy : Z) :
  getEntity g r = Some e ->
  isPositionFree (gameMap g) (getPosition e) = true ->
  exists e' : Entity,
    getEntity (updateEntityPosition g r dx dy) r = Some e'
    /\ isPositionFree (gameMap (updateEntityPosition g r dx dy))
                      (getPosition e') = true.
Proof.
  intros He Hfree. unfold updateEntityPosition.
  set (g1 := match pathThread g r with Some orc => detach g orc | None => g end).
  assert (gameMap g1 = gameMap g) as Hm
      by (unfold g1; destruct (pathThread g r); reflexivity).
  assert (getEntity g1 r = Some e) as He1
      by (unfold g1; destruct (pathThread g r);
          rewrite ?getEntity_detach; exact He).
  rewrite He1. exists (moveOrRevert (gameMap g1) e dx dy). split.
  - apply (getEntity_setEntity g1 r e). exact He1.
  - assert (gameMap (setEntity g1 r (moveOrRevert (gameMap g1) e dx dy))
            = gameMap g) as -> by (destruct r; exact Hm).
    rewrite Hm, moveOrRevert_position.
    destruct (isPositionFree (gameMap g) (offset (getPosition e) dx dy)) eqn:E;
      assumption.
Qed.

Lemma updateEntityPosition_keeps_free_witness :
  exists e' : Entity,
    getEntity (updateEntityPosition walledGame ThePlayer 1 0) ThePlayer = Some e'
    /\ isPositionFree (gameMap (updateEntityPosition walledGame ThePlayer 1 0))
                      (getPosition e') = true.
Proof.
  apply (updateEntityPosition_keeps_free walledGame ThePlayer
           (pbody (player walledGame)) 1 0); reflexivity.
Defined.

(** ** Path threads started by a move *)

Lemma updateEntityPosition_orc_thread (g : Game) (i : nat) (m : Monster) (dx dy : Z) :
  monsters g !! i = Some m ->
  isOrc m = true ->
  path m = [] ->
  threads (updateEntityPosition g (TheMonster i) dx dy) = threads g ++ [self m]
  /\ exists m' : Monster,
       monsters (updateEntityPosition g (TheMonster i) dx dy) !! i = Some m'
       /\ isOrc m' = true /\ path m' = [] /\ self m' = self m.
Proof.
  intros Hm Horc Hpath.
  unfold updateEntityPosition, pathThread. rewrite Hm, Horc.
  unfold isPathEmpty. rewrite Hpath. cbn [andb orb getEntity detach monsters].
  rewrite Hm. cbn [fmap option_fmap option_map setEntity setMonsters threads monsters].
  split; [reflexivity|].
  rewrite list_lookup_alter_eq. cbn [detach monsters]. rewrite Hm.
  eexists. split; [reflexivity|]. repeat split; assumption.
Qed.

(** X8: nothing holds back the path threads of an Orc whose path is empty:
    every call of [updateEntityPosition] on it starts one more thread on
    the same Orc, whether or not the earlier ones have finished, so [n]
    calls leave [n] more threads behind. *)
Theorem orc_thread_every_call (n : nat) (g : Game) (i : nat) (m : Monster) (dx dy : Z) :
  monsters g !! i = Some m ->
  isOrc m = true ->
  path m = [] ->
  threads (Nat.iter n (fun g' => updateEntityPosition g' (TheMonster i) dx dy) g)
  = threads g ++ repeat (self m) n.
Proof.
  intros Hm Horc Hpath.
  assert (threads (Nat.iter n (fun g' => updateEntityPosition g' (TheMonster i) dx dy) g)
          = threads g ++ repeat (self m) n
          /\ exists m' : Monster,
               monsters (Nat.iter n
                           (fun g' => updateEntityPosition g' (TheMonster i) dx dy) g)
               !! i = Some m'
               /\ isOrc m' = true /\ path m' = [] /\ self m' = self m) as [H _];
    [|exact H].
  induction n as [|n [IHt (m' & IHm & IHo & IHp & IHs)]].
  - cbn. rewrite app_nil_r. split; [reflexivity|]. eauto.
  - rewrite Nat.iter_succ.
    destruct (updateEntityPosition_orc_thread _ i m' dx dy IHm IHo IHp)
      as (Ht & m'' & Hm'' & Ho & Hp & Hs).
    split.
    + rewrite Ht, IHt, IHs, <- app_assoc. f_equal.
      change [self m] with (repeat (self m) 1). rewrite <- repeat_app.
      f_equal. lia.
    + exists m''. repeat split; try assumption. congruence.
Qed.

Lemma orc_thread_every_call_witness :
  threads (Nat.iter 3 (fun g' => updateEntityPosition g' (TheMonster 0) 1 1) farOrcGame)
  = threads farOrcGame ++ repeat 0%nat 3.
Proof.
  apply (orc_thread_every_call 3 farOrcGame 0 (aMonster Orc 0 30 30 5 1) 1 1);
    reflexivity.
Defined.

(** X9: a move starts no thread when the entity is the player, when it is
    a monster that is not an Orc, and when it is an Orc that has a path and
    is 8 cells or more from the player. *)
Theorem no_thread_without_need (g : Game) (r : EntityRef) (dx dy : Z) :
  (forall (i : nat) (m : Monster),
      r = TheMonster i -> monsters g !! i = Some m ->
      isOrc m = false
      \/ (path m <> []
          /\ 64 <= distanceSq (getPosition (body m)) (getPosition (pbody (player g))))) ->
  threads (updateEntityPosition g r dx dy) = threads g.
Proof.
  intros Hneed. unfold updateEntityPosition.
  assert (pathThread g r = None) as ->.
  { unfold pathThread. destruct r as [|i]; [reflexivity|].
    destruct (monsters g !! i) as [m|] eqn:Hm; [|reflexivity].
    destruct (Hneed i m eq_refl Hm) as [-> | [Hpath Hfar]]; [reflexivity|].
    unfold isPathEmpty, distance_lt. destruct (path m); [congruence|].
    change (8 * 8) with 64.
    assert ((distanceSq (getPosition (body m)) (getPosition (pbody (player g)))
             <? 64) = false) as -> by (apply Z.ltb_ge; exact Hfar).
    rewrite andb_false_r. reflexivity. }
  destruct (getEntity g r); destruct r; reflexivity.
Qed.

Lemma no_thread_without_need_witness :
  threads (updateEntityPosition duelGame (TheMonster 0) (-1) 0) = threads duelGame
  /\ threads (updateEntityPosition duelGame ThePlayer 1 0) = threads duelGame.
Proof.
  split.
  - apply (no_thread_without_need duelGame (TheMonster 0) (-1) 0).
    intros i m [= <-] [= <-]. left. reflexivity.
  - reflexivity.
Defined.

(** ** Input *)

(** X10: a move key needs no fight and changes the player's position only.
    The roster, the threads, the generator, the map, the level and the
    player's health and experience are as before; the player ends at most
    one cell away, along one axis, and on a cell other than its own only if
    that cell is free. *)
Theorem move_key_moves_player_only (fuel : nat) (ch : Key) (g : Game) :
  ch = KeyUp \/ ch = KeyDown \/ ch = KeyLeft \/ ch = KeyRight ->
  exists g' : Game,
    handleInput fuel ch g = Running g'
    /\ monsters g' = monsters g /\ threads g' = threads g /\ rng g' = rng g
    /\ gameMap g' = gameMap g /\ level g' = level g
    /\ exp (player g') = exp (player g)
    /\ getHealth (pbody (player g')) = getHealth (pbody (player g))
    /\ Z.abs (px (getPosition (pbody (player g'))) - px (getPosition (pbody (player g))))
       + Z.abs (py (getPosition (pbody (player g')))
                - py (getPosition (pbody (player g)))) <= 1
    /\ (getPosition (pbody (player g')) = getPosition (pbody (player g))
        \/ isPositionFree (gameMap g) (getPosition (pbody (player g'))) = true).
Proof.
  intros [-> | [-> | [-> | ->]]]; eexists; (split; [reflexivity|]);
    unfold updateEntityPosition; cbn [pathThread getEntity setEntity setPlayer
      monsters threads rng gameMap level player exp pbody];
    unfold moveOrRevert, move, setPosition, getPosition, getHealth;
    cbn [position];
    match goal with |- context [isPositionFree ?m ?p] =>
      destruct (isPositionFree m p) eqn:Hfree end;
    cbn [negb position health px py offset]; repeat split; try lia;
    solve [left; reflexivity | right; exact Hfree].
Qed.

Lemma move_key_moves_player_only_witness :
  exists g' : Game,
    handleInput 0 KeyDown walledGame = Running g'
    /\ monsters g' = monsters walledGame
    /\ getPosition (pbody (player g')) = mkPoint 0 1.
Proof.
  destruct (move_key_moves_player_only 0 KeyDown walledGame)
    as (g' & Hrun & Hms & _); [right; left; reflexivity|].
  exists g'. split; [exact Hrun|]. split; [exact Hms|].
  cbn in Hrun. injection Hrun as <-. reflexivity.
Defined.

Lemma firstMonsterAt_none (p : Point) (ms : list Monster) :
  forall k : nat,
    Forall (fun m => Point_eqb p (getPosition (body m)) = false) ms ->
    firstMonsterAt p ms k = None.
Proof.
  induction ms as [|m ms IH]; intros k Hfar; [reflexivity|].
  apply Forall_cons in Hfar as [Hm Hfar]. cbn [firstMonsterAt].
  rewrite Hm. apply IH. exact Hfar.
Qed.

Lemma firstMonsterAt_first (p : Point) (front : list Monster) (m : Monster)
      (rest : list Monster) :
  forall k : nat,
    Forall (fun x => Point_eqb p (getPosition (body x)) = false) front ->
    Point_eqb p (getPosition (body m)) = true ->
    firstMonsterAt p (front ++ m :: rest) k = Some (k + length front)%nat.
Proof.
  induction front as [|x front IH]; intros k Hfar Hm; cbn [app firstMonsterAt length].
  - rewrite Hm, Nat.add_0_r. reflexivity.
  - apply Forall_cons in Hfar as [Hx Hfar]. rewrite Hx.
    rewrite (IH (S k) Hfar Hm). f_equal. lia.
Qed.

(** X11: the attack key does nothing when no monster stands on the
    player's cell, and otherwise is one fight, with the player as the
    attacker, against the first monster of the roster on that cell; the
    other monsters on the cell are not fought. *)
Theorem attack_key_fights_first_monster (fuel : nat) (g : Game) :
  (Forall (fun m => Point_eqb (getPosition (pbody (player g)))
                              (getPosition (body m)) = false) (monsters g) ->
   handleInput fuel KeySpace g = Running g)
  /\ forall (front : list Monster) (m : Monster) (rest : list Monster),
       monsters g = front ++ m :: rest ->
       Forall (fun x => Point_eqb (getPosition (pbody (player g)))
                                  (getPosition (body x)) = false) front ->
       Point_eqb (getPosition (pbody (player g))) (getPosition (body m)) = true ->
       handleInput fuel KeySpace g
       = fight fuel g ThePlayer (TheMonster (length front)).
Proof.
  split.
  - intros Hfar. cbn [handleInput]. rewrite firstMonsterAt_none by exact Hfar.
    reflexivity.
  - intros front m rest Hms Hfar Hm. cbn [handleInput]. rewrite Hms at 1.
    rewrite (firstMonsterAt_first _ front m rest 0 Hfar Hm). reflexivity.
Qed.

Lemma attack_key_fights_first_monster_witness :
  handleInput 5 KeySpace duelGame = Running duelGame
  /\ handleInput 5 KeySpace (aGame openMap [farGoblin; aMonster Goblin 1 0 0 5 1;
                                            aMonster Goblin 2 0 0 9 1])
     = fight 5 (aGame openMap [farGoblin; aMonster Goblin 1 0 0 5 1;
                               aMonster Goblin 2 0 0 9 1])
             ThePlayer (TheMonster 1).
Proof.
  split.
  - apply (proj1 (attack_key_fights_first_monster 5 duelGame)).
    repeat constructor.
  - apply (proj2 (attack_key_fights_first_monster 5
                    (aGame openMap [farGoblin; aMonster Goblin 1 0 0 5 1;
                                    aMonster Goblin 2 0 0 9 1]))
                 [farGoblin] (aMonster Goblin 1 0 0 5 1)
                 [aMonster Goblin 2 0 0 9 1]);
      [reflexivity | repeat constructor | reflexivity].
Defined.

(** ** The step of a monster *)

Lemma stepMonster_position (p : Player) (mp : Map) (m : Monster) :
  getPosition (body (stepMonster p mp m))
  = if isPositionFree mp (offset (getPosition (body m))
                                 (monsterStep p m).1 (monsterStep p m).2)
    then offset (getPosition (body m)) (monsterStep p m).1 (monsterStep p m).2
    else getPosition (body m).
Proof. unfold stepMonster. cbn [body setBody]. apply moveOrRevert_position. Qed.

(** X12: in one update a monster moves at most one cell along each axis.
    A monster within 10 cells of the player never ends farther from the
    player than it was, and when it is not on the player's cell and the
    cell it steps to is free, it ends strictly closer. *)
Theorem monster_step_approaches (p : Player) (mp : Map) (m : Monster) :
  Z.abs (px (getPosition (body (stepMonster p mp m))) - px (getPosition (body m))) <= 1
  /\ Z.abs (py (getPosition (body (stepMonster p mp m))) - py (getPosition (body m)))
     <= 1
  /\ (areEntitiesInVicinity (pbody p) (body m) 10 = true ->
      distanceSq (getPosition (pbody p)) (getPosition (body (stepMonster p mp m)))
      <= distanceSq (getPosition (pbody p)) (getPosition (body m)))
  /\ (areEntitiesInVicinity (pbody p) (body m) 10 = true ->
      Point_eqb (getPosition (pbody p)) (getPosition (body m)) = false ->
      isPositionFree mp (offset (getPosition (body m))
                                (monsterStep p m).1 (monsterStep p m).2) = true ->
      distanceSq (getPosition (pbody p)) (getPosition (body (stepMonster p mp m)))
      < distanceSq (getPosition (pbody p)) (getPosition (body m))).
Proof.
  rewrite stepMonster_position, monsterStep_sgn.
  unfold areEntitiesInVicinity, distance_le, distanceSq, Point_eqb.
  change (10 * 10) with 100.
  set (P := getPosition (pbody p)). set (q := getPosition (body m)).
  unfold distanceSq.
  destruct (Z.sgn_spec (px P - px q)) as [[? Hx]|[[? Hx]|[? Hx]]];
    destruct (Z.sgn_spec (py P - py q)) as [[? Hy]|[[? Hy]|[? Hy]]];
    rewrite Hx, Hy;
    destruct ((px P - px q) * (px P - px q) + (py P - py q) * (py P - py q) <=? 100);
    cbn [fst snd];
    match goal with |- context [isPositionFree mp ?c] =>
      destruct (isPositionFree mp c) end;
    cbn [offset px py];
    (split; [lia|]); (split; [lia|]);
    (split; [intros Hin; try discriminate Hin; nia|]);
    intros Hin Hne Hfree; try discriminate Hin; try discriminate Hfree;
    apply andb_false_iff in Hne as [Hne|Hne]; apply Z.eqb_neq in Hne; nia.
Qed.

Lemma monster_step_approaches_witness :
  distanceSq (getPosition (pbody (player calmGame)))
             (getPosition (body (stepMonster (player calmGame) (gameMap calmGame)
                                             (aMonster Goblin 0 5 0 5 1))))
  < distanceSq (getPosition (pbody (player calmGame)))
               (getPosition (body (aMonster Goblin 0 5 0 5 1))).
Proof.
  apply (monster_step_approaches (player calmGame) (gameMap calmGame)
                                 (aMonster Goblin 0 5 0 5 1)); reflexivity.
Defined.

(** ** What the monster update keeps *)

Lemma fightLoop_frame (fuel : nat) (s s' : Fight) :
  fightLoop fuel s = Some s' ->
  position (attacker s') = position (attacker s)
  /\ strength (attacker s') = strength (attacker s)
  /\ position (defender s') = position (defender s)
  /\ strength (defender s') = strength (defender s).
Proof.
  revert s; induction fuel as [|fuel IH]; intros s; cbn [fightLoop];
    destruct (isAlive (attacker s) && isAlive (defender s)); try discriminate;
    try (intros [= <-]; repeat split).
  intros Hloop. destruct (IH _ Hloop) as (H1 & H2 & H3 & H4).
  destruct (fightRound_frame s) as (F1 & F2 & F3 & F4).
  repeat split; congruence.
Qed.

Lemma updateKeeps_refl (g : Game) : updateKeeps g g.
Proof.
  unfold updateKeeps. repeat split; try lia; try tauto.
  exists []. rewrite app_nil_r. reflexivity.
Qed.

Lemma updateKeeps_trans (g1 g2 g3 : Game) :
  updateKeeps g1 g2 -> updateKeeps g2 g3 -> updateKeeps g1 g3.
Proof.
  unfold updateKeeps.
  intros (L1 & P1 & A1 & F1 & S1 & E1 & N1 & (t1 & T1) & V1 & C1)
         (L2 & P2 & A2 & F2 & S2 & E2 & N2 & (t2 & T2) & V2 & C2).
  rewrite F1 in C2.
  repeat split; try congruence; try lia; try tauto.
  exists (t1 ++ t2). rewrite T2, T1, <- app_assoc. reflexivity.
Qed.

Lemma lookup_split (ms : list Monster) (i : nat) (m : Monster) :
  ms !! i = Some m ->
  exists front rest : list Monster, ms = front ++ m :: rest /\ length front = i.
Proof.
  intros Hm. exists (take i ms), (drop (S i) ms). split.
  - symmetry. apply take_drop_middle. exact Hm.
  - apply length_take_le. apply lookup_lt_Some in Hm. lia.
Qed.

Lemma moveOrRevert_alive (mp : Map) (e : Entity) (dx dy : Z) :
  isAlive (moveOrRevert mp e dx dy) = isAlive e.
Proof.
  unfold moveOrRevert, move, setPosition, isAlive. destruct (negb _); reflexivity.
Qed.

Lemma moveOrRevert_free (mp : Map) (e : Entity) (dx dy : Z) :
  freeCell mp (getPosition e) = true ->
  freeCell mp (getPosition (moveOrRevert mp e dx dy)) = true.
Proof.
  intros Hfree. rewrite moveOrRevert_position. unfold isPositionFree.
  destruct (freeCell mp (offset (getPosition e) dx dy)) eqn:E; assumption.
Qed.

Lemma updateKeeps_step (g : Game) (i : nat) (dx dy : Z) :
  updateKeeps g (updateEntityPosition g (TheMonster i) dx dy).
Proof.
  destruct (monsters g !! i) as [m|] eqn:Hm.
  - destruct (lookup_split _ _ _ Hm) as (front & rest & Hms & <-).
    rewrite (updateEntityPosition_monster g front m rest dx dy Hms).
    unfold updateKeeps. cbn [level player gameMap monsters threads].
    rewrite Hms. repeat split.
    + rewrite !length_app. cbn [length]. lia.
    + eauto.
    + rewrite !Forall_app, !Forall_cons. intros (Hf & Hx & Hr).
      repeat split; try assumption.
      unfold aliveMonster in *. cbn [body setBody].
      rewrite moveOrRevert_alive. exact Hx.
    + rewrite !Forall_app, !Forall_cons. intros (Hf & Hx & Hr).
      repeat split; try assumption.
      unfold onFreeCell in *. cbn [body setBody].
      apply moveOrRevert_free. exact Hx.
  - unfold updateEntityPosition, pathThread. rewrite Hm. cbn [getEntity].
    rewrite Hm. apply updateKeeps_refl.
Qed.

Lemma Forall_filter_alive (P : Monster -> Prop) (ms : list Monster) :
  Forall P ms -> Forall P (List.filter (fun m => isAlive (body m)) ms).
Proof.
  intros H. apply List.Forall_forall. intros m Hm.
  apply List.filter_In in Hm as [Hm _].
  rewrite List.Forall_forall in H. apply H. exact Hm.
Qed.

Lemma updateKeeps_fight (fuel : nat) (g g' : Game) (i : nat) :
  fight fuel g (TheMonster i) ThePlayer = Running g' -> updateKeeps g g'.
Proof.
  destruct (monsters g !! i) as [m|] eqn:Hm.
  - destruct (lookup_split _ _ _ Hm) as (front & rest & Hms & <-).
    unfold fight. cbn [getEntity sameEntity erased]. rewrite Hm.
    cbn [fmap option_fmap option_map].
    destruct (fightLoop fuel _) as [s|] eqn:Hloop; [|discriminate].
    destruct (negb (isAlive _)); [discriminate|]. intros [= <-].
    destruct (fightLoop_frame _ _ _ Hloop) as (Fpa & Fsa & Fpd & Fsd).
    cbn [attacker defender] in Fpa, Fsa, Fpd, Fsd.
    unfold updateKeeps. cbn. rewrite Hms.
    rewrite alter_app_r_alt by lia. rewrite Nat.sub_diag. cbn [alter list_alter].
    repeat split; try assumption.
    + etransitivity; [apply List.filter_length_le|].
      rewrite !length_app. cbn [length]. lia.
    + exists []. rewrite app_nil_r. reflexivity.
    + intros _. apply filter_alive_Forall.
    + rewrite !Forall_app, !Forall_cons. intros (Hf & Hx & Hr).
      apply Forall_filter_alive. rewrite !Forall_app, !Forall_cons.
      repeat split; try assumption.
      unfold onFreeCell, getPosition in *. cbn [body setBody]. rewrite Fpa. exact Hx.
  - unfold fight. cbn [getEntity]. rewrite Hm. cbn. intros [= <-].
    apply updateKeeps_refl.
Qed.

Lemma updatePositionsFrom_keeps (fuel todo : nat) :
  forall (i : nat) (g g' : Game),
    updatePositionsFrom fuel todo i g = Running g' -> updateKeeps g g'.
Proof.
  induction todo as [|todo IH]; intros i g g'; cbn [updatePositionsFrom].
  - intros [= <-]. apply updateKeeps_refl.
  - destruct (monsters g !! i) as [m|]; [|intros [= <-]; apply updateKeeps_refl].
    destruct (monsterStep (player g) m) as [dx dy].
    pose proof (updateKeeps_step g i dx dy) as Hstep.
    destruct (onPlayer _ i); intros Hrun.
    + exact (updateKeeps_trans _ _ _ Hstep (updateKeeps_fight _ _ _ _ Hrun)).
    + exact (updateKeeps_trans _ _ _ Hstep (IH _ _ _ Hrun)).
Qed.

(** X13: when the game goes on after the monster update, the update has
    not moved the player nor changed its attack, has left the level and the
    cells of the map as they were, has added no monster to the roster and
    has dropped none of the threads that were running. *)
Theorem updatePositions_frame (fuel : nat) (g g' : Game) :
  updatePositions fuel g = Running g' ->
  level g' = level g
  /\ getPosition (pbody (player g')) = getPosition (pbody (player g))
  /\ getAttack (pbody (player g')) = getAttack (pbody (player g))
  /\ freeCell (gameMap g') = freeCell (gameMap g)
  /\ startCell (gameMap g') = startCell (gameMap g)
  /\ endCell (gameMap g') = endCell (gameMap g)
  /\ (length (monsters g') <= length (monsters g))%nat
  /\ exists started : list nat, threads g' = threads g ++ started.
Proof.
  intros Hrun.
  destruct (updatePositionsFrom_keeps _ _ _ _ _ Hrun)
    as (H1 & H2 & H3 & H4 & H5 & H6 & H7 & H8 & _).
  repeat split; assumption.
Qed.

Lemma updatePositions_frame_witness :
  exists g' : Game,
    updatePositions 5 duelGame = Running g'
    /\ getPosition (pbody (player g')) = getPosition (pbody (player duelGame))
    /\ (length (monsters g') <= length (monsters duelGame))%nat.
Proof.
  eexists. split; [vm_compute; reflexivity|].
  match goal with |- context [player ?g'] =>
    pose proof (updatePositions_frame 5 duelGame g') as H end.
  destruct H as (_ & Hp & _ & _ & _ & _ & Hn & _); [vm_compute; reflexivity|].
  split; [exact Hp | exact Hn].
Defined.

(** X14: the monster update keeps the roster sound: when every monster of
    the roster is alive and stands on a free cell of the map before it, and
    the game goes on after it, every monster of the roster is alive and
    stands on a free cell of the map. *)
Theorem updatePositions_keeps_roster_sound (fuel : nat) (g g' : Game) :
  Forall aliveMonster (monsters g) ->
  Forall (onFreeCell (isPositionFree (gameMap g))) (monsters g) ->
  updatePositions fuel g = Running g' ->
  Forall aliveMonster (monsters g')
  /\ Forall (onFreeCell (isPositionFree (gameMap g'))) (monsters g').
Proof.
  intros Halive Hfree Hrun.
  destruct (updatePositionsFrom_keeps _ _ _ _ _ Hrun)
    as (_ & _ & _ & Hcells & _ & _ & _ & _ & Ha & Hf).
  split; [exact (Ha Halive)|].
  unfold isPositionFree in *.
  replace (fun p => freeCell (gameMap g') p) with (freeCell (gameMap g'))
    by reflexivity.
  rewrite Hcells. exact (Hf Hfree).
Qed.

Lemma updatePositions_keeps_roster_sound_witness :
  exists g' : Game,
    updatePositions 5 calmGame = Running g'
    /\ Forall aliveMonster (monsters g')
    /\ Forall (onFreeCell (isPositionFree (gameMap g'))) (monsters g').
Proof.
  eexists. split; [vm_compute; reflexivity|].
  apply (updatePositions_keeps_roster_sound 5 calmGame);
    [repeat constructor | repeat constructor | vm_compute; reflexivity].
Defined.

(** ** The size of a population *)

Lemma dragons_bounds (count : Z) :
  0 <= count ->
  0 <= count - Z.quot count 2 - Z.quot count 3 - Z.quot count 6 <= 2
  /\ (count - Z.quot count 2 - Z.quot count 3 - Z.quot count 6 = 0
      <-> Z.rem count 6 = 0).
Proof.
  intros Hc. rewrite !Z.quot_div_nonneg, Z.rem_mod_nonneg by lia.
  pose proof (Z.div_mod count 6 ltac:(lia)) as H6.
  pose proof (Z.div_mod count 2 ltac:(lia)) as H2.
  pose proof (Z.div_mod count 3 ltac:(lia)) as H3.
  pose proof (Z.mod_pos_bound count 6 ltac:(lia)) as R6.
  pose proof (Z.mod_pos_bound count 2 ltac:(lia)) as R2.
  pose proof (Z.mod_pos_bound count 3 ltac:(lia)) as R3.
  set (m6 := count mod 6) in *. set (m2 := count mod 2) in *.
  set (m3 := count mod 3) in *. set (q6 := count / 6) in *.
  set (q2 := count / 2) in *. set (q3 := count / 3) in *.
  clearbody m6 m2 m3 q6 q2 q3.
  assert (m2 = 0 \/ m2 = 1) as [-> | ->] by lia;
    assert (m6 = 0 \/ m6 = 1 \/ m6 = 2 \/ m6 = 3 \/ m6 = 4 \/ m6 = 5)
      as [-> |[-> |[-> |[-> |[-> | ->]]]]] by lia;
    assert (m3 = 0 \/ m3 = 1 \/ m3 = 2) as [-> |[-> | ->]] by lia; lia.
Qed.

Lemma population_length (count : Z) :
  length (population count) = Z.to_nat count.
Proof.
  unfold population. rewrite !length_app, !repeat_length.
  destruct (Z.le_gt_cases 0 count) as [Hc|Hc].
  - pose proof (dragons_bounds count Hc) as [Hd _].
    pose proof (Z.quot_pos count 2 Hc ltac:(lia)).
    pose proof (Z.quot_pos count 3 Hc ltac:(lia)).
    pose proof (Z.quot_pos count 6 Hc ltac:(lia)). lia.
  - pose proof (dragons_bounds (- count) ltac:(lia)) as [Hd _].
    rewrite !Z.quot_opp_l in Hd by lia.
    pose proof (Z.quot_pos (- count) 2 ltac:(lia) ltac:(lia)) as P2.
    pose proof (Z.quot_pos (- count) 3 ltac:(lia) ltac:(lia)) as P3.
    pose proof (Z.quot_pos (- count) 6 ltac:(lia) ltac:(lia)) as P6.
    rewrite Z.quot_opp_l in P2, P3, P6 by lia. lia.
Qed.

Lemma Species_eq_dec (a b : Species) : {a = b} + {a <> b}.
Proof. decide equality. Defined.

Section PopulationSize.

Variable baseHealth baseAttack : Species -> Z.
Variable glyph : Species -> Represetiation.

Local Abbreviation create := (createMonsterLoop baseHealth baseAttack glyph).
Local Abbreviation initialize := (initalizeMonsters baseHealth baseAttack glyph).
Local Abbreviation fresh := (freshMonster baseHealth baseAttack).

Lemma initalizeMonsters_species (count : Z) (g : Game) :
  List.map species (monsters (initialize count g)) = population count.
Proof.
  unfold initalizeMonsters, createMonster, population.
  set (a := Z.to_nat (Z.quot count 2)). set (b := Z.to_nat (Z.quot count 3)).
  set (t := Z.to_nat (Z.quot count 6)).
  set (d := Z.to_nat (count - Z.quot count 2 - Z.quot count 3 - Z.quot count 6)).
  set (g0 := setMonsters g []).
  destruct (createMonsterLoop_roster baseHealth baseAttack glyph Goblin a g0)
    as (S1 & _).
  destruct (createMonsterLoop_roster baseHealth baseAttack glyph Orc b
              (create a Goblin g0)) as (S2 & _).
  destruct (createMonsterLoop_roster baseHealth baseAttack glyph Troll t
              (create b Orc (create a Goblin g0))) as (S3 & _).
  destruct (createMonsterLoop_roster baseHealth baseAttack glyph Dragon d
              (create t Troll (create b Orc (create a Goblin g0)))) as (S4 & _).
  rewrite S4, S3, S2, S1. cbn. rewrite <- !app_assoc. reflexivity.
Qed.

Lemma initalizeMonsters_length (count : Z) (g : Game) :
  length (monsters (initialize count g)) = Z.to_nat count.
Proof.
  rewrite <- (length_map species), initalizeMonsters_species.
  apply population_length.
Qed.

(** X15: [initalizeMonsters] leaves a roster of exactly [count] monsters,
    none when [count] is not positive.  For a count that is not negative
    the share left to the dragons is 0, 1 or 2 monsters, and it is 0
    exactly when [count] is a multiple of 6. *)
Theorem initalizeMonsters_size (count : Z) (g : Game) :
  length (monsters (initialize count g)) = Z.to_nat count
  /\ (0 <= count ->
      (count_occ Species_eq_dec
                 (List.map species (monsters (initialize count g))) Dragon <= 2)%nat
      /\ (count_occ Species_eq_dec
                    (List.map species (monsters (initialize count g))) Dragon = 0%nat
          <-> Z.rem count 6 = 0)).
Proof.
  split; [apply initalizeMonsters_length|].
  intros Hc. rewrite initalizeMonsters_species. unfold population.
  rewrite !count_occ_app.
  rewrite !count_occ_repeat_neq by discriminate.
  rewrite count_occ_repeat_eq by reflexivity.
  destruct (dragons_bounds count Hc) as [Hd Hz]. split; [lia|].
  rewrite <- Hz. lia.
Qed.

Lemma createMonsterLoop_frame (sp : Species) (n : nat) :
  forall (g : Game) (oldNext : nat),
    (oldNext <= nextAddress g)%nat ->
    Forall (fresh oldNext) (monsters g) ->
    level (create n sp g) = level g
    /\ player (create n sp g) = player g
    /\ rng (create n sp g) = rng g
    /\ threads (create n sp g) = threads g
    /\ nextAddress (create n sp g) = (nextAddress g + n)%nat
    /\ freeCell (gameMap (create n sp g)) = freeCell (gameMap g)
    /\ startCell (gameMap (create n sp g)) = startCell (gameMap g)
    /\ endCell (gameMap (create n sp g)) = endCell (gameMap g)
    /\ freeCalls (gameMap (create n sp g)) = (freeCalls (gameMap g) + n)%nat
    /\ length (monsters (create n sp g)) = (length (monsters g) + n)%nat
    /\ Forall (fresh oldNext) (monsters (create n sp g)).
Proof.
  induction n as [|n IH]; intros g oldNext Hnext Hfresh.
  - cbn [createMonsterLoop]. rewrite !Nat.add_0_r. repeat split. exact Hfresh.
  - cbn [createMonsterLoop randomFreePosition].
    match goal with |- context [create n sp ?g1] =>
      destruct (IH g1 oldNext) as (H1 & H2 & H3 & H4 & H5 & H6 & H7 & H8 & H9 & H10 & H11)
    end.
    + cbn. lia.
    + cbn [pushMonster monsters setMap]. apply Forall_app. split; [exact Hfresh|].
      repeat constructor. exact Hnext.
    + rewrite H1, H2, H3, H4, H5, H6, H7, H8, H9, H10.
      cbn [pushMonster setMap level player rng threads nextAddress gameMap
           freeCell startCell endCell freeCalls monsters].
      rewrite length_app. cbn [length].
      repeat split; try lia. exact H11.
Qed.

Lemma initalizeMonsters_keeps (count : Z) (g : Game) :
  level (initialize count g) = level g
  /\ player (initialize count g) = player g
  /\ rng (initialize count g) = rng g
  /\ threads (initialize count g) = threads g
  /\ nextAddress (initialize count g) = (nextAddress g + Z.to_nat count)%nat
  /\ freeCell (gameMap (initialize count g)) = freeCell (gameMap g)
  /\ startCell (gameMap (initialize count g)) = startCell (gameMap g)
  /\ endCell (gameMap (initialize count g)) = endCell (gameMap g)
  /\ freeCalls (gameMap (initialize count g))
     = (freeCalls (gameMap g) + Z.to_nat count)%nat
  /\ Forall (fresh (nextAddress g)) (monsters (initialize count g)).
Proof.
  pose proof (population_length count) as Hlen. unfold population in Hlen.
  rewrite !length_app, !repeat_length in Hlen.
  unfold initalizeMonsters, createMonster.
  set (a := Z.to_nat (Z.quot count 2)) in *.
  set (b := Z.to_nat (Z.quot count 3)) in *.
  set (t := Z.to_nat (Z.quot count 6)) in *.
  set (d := Z.to_nat (count - Z.quot count 2 - Z.quot count 3 - Z.quot count 6)) in *.
  set (g0 := setMonsters g []).
  destruct (createMonsterLoop_frame Goblin a g0 (nextAddress g))
    as (A1 & A2 & A3 & A4 & A5 & A6 & A7 & A8 & A9 & _ & A11);
    [cbn; lia | constructor |].
  destruct (createMonsterLoop_frame Orc b (create a Goblin g0) (nextAddress g))
    as (B1 & B2 & B3 & B4 & B5 & B6 & B7 & B8 & B9 & _ & B11);
    [rewrite A5; cbn; lia | exact A11 |].
  destruct (createMonsterLoop_frame Troll t (create b Orc (create a Goblin g0))
                                    (nextAddress g))
    as (C1 & C2 & C3 & C4 & C5 & C6 & C7 & C8 & C9 & _ & C11);
    [rewrite B5, A5; cbn; lia | exact B11 |].
  destruct (createMonsterLoop_frame Dragon d
              (create t Troll (create b Orc (create a Goblin g0))) (nextAddress g))
    as (D1 & D2 & D3 & D4 & D5 & D6 & D7 & D8 & D9 & _ & D11);
    [rewrite C5, B5, A5; cbn; lia | exact C11 |].
  rewrite D1, C1, B1, A1, D2, C2, B2, A2, D3, C3, B3, A3, D4, C4, B4, A4,
    D5, C5, B5, A5, D6, C6, B6, A6, D7, C7, B7, A7, D8, C8, B8, A8,
    D9, C9, B9, A9.
  unfold g0. cbn [setMonsters level player rng threads nextAddress gameMap].
  repeat split; try lia. exact D11.
Qed.

(** X16: [initalizeMonsters] touches the roster, the allocator and the
    map's supply of free cells only.  The level, the player, the generator
    and the threads are as before, the map keeps its cells, start and end
    and its stream of free cells and has handed out exactly one of them per
    monster, and every monster of the new roster is a newly made object
    with no path and the health and attack of its species: nothing of the
    old roster is left. *)
Theorem initalizeMonsters_frame (count : Z) (g : Game) :
  level (initialize count g) = level g
  /\ player (initialize count g) = player g
  /\ rng (initialize count g) = rng g
  /\ threads (initialize count g) = threads g
  /\ nextAddress (initialize count g) = (nextAddress g + Z.to_nat count)%nat
  /\ freeCell (gameMap (initialize count g)) = freeCell (gameMap g)
  /\ startCell (gameMap (initialize count g)) = startCell (gameMap g)
  /\ endCell (gameMap (initialize count g)) = endCell (gameMap g)
  /\ freeCalls (gameMap (initialize count g))
     = (freeCalls (gameMap g) + Z.to_nat count)%nat
  /\ Forall (fresh (nextAddress g)) (monsters (initialize count g))
  /\ freeCells (gameMap (initialize count g)) = freeCells (gameMap g).
Proof.
  destruct (initalizeMonsters_keeps count g)
    as (H1 & H2 & H3 & H4 & H5 & H6 & H7 & H8 & H9 & H10).
  repeat split; try assumption.
  unfold initalizeMonsters, createMonster.
  repeat match goal with
         | |- context [createMonsterLoop _ _ _ ?n ?sp ?g1] =>
             destruct (createMonsterLoop_roster baseHealth baseAttack glyph sp n g1)
               as (_ & _ & -> & _)
         end.
  reflexivity.
Qed.

Variable monsterCount : Z.
Variable Map_loadLevel : Map -> Map.

Local Abbreviation load :=
  (loadLevel monsterCount baseHealth baseAttack glyph Map_loadLevel).

(** X17: while the count of the level is within the range of [int] (the
    setting is not negative and the sum with the power of two does not
    pass 2147483647), [loadLevel] puts the player on the start cell of the
    regenerated map and leaves its health, attack and experience as they
    were; the new roster has [levelMonsterCount] monsters, all newly made;
    and the path threads that were running are neither stopped nor waited
    for. *)
Theorem loadLevel_player_and_roster (g : Game) :
  0 <= monsterCount ->
  monsterCount + 2 ^ (level g - 1) <= 2147483647 ->
  getPosition (pbody (player (load g))) = getStart (Map_loadLevel (gameMap g))
  /\ getHealth (pbody (player (load g))) = getHealth (pbody (player g))
  /\ getAttack (pbody (player (load g))) = getAttack (pbody (player g))
  /\ exp (player (load g)) = exp (player g)
  /\ length (monsters (load g))
     = Z.to_nat (levelMonsterCount monsterCount (level g))
  /\ Forall (fresh (nextAddress g)) (monsters (load g))
  /\ threads (load g) = threads g
  /\ freeCell (gameMap (load g)) = freeCell (Map_loadLevel (gameMap g)).
Proof.
  intros _ _. unfold loadLevel.
  match goal with |- context [initalizeMonsters _ _ _ ?c ?g2] =>
    destruct (initalizeMonsters_keeps c g2)
      as (_ & Hp & _ & Ht & _ & Hf & _ & _ & _ & Hfresh);
    pose proof (initalizeMonsters_length c g2) as Hlen
  end.
  rewrite Hp, Ht, Hf, Hlen. repeat split. exact Hfresh.
Qed.

End PopulationSize.

Lemma initalizeMonsters_size_witness :
  (count_occ Species_eq_dec
             (List.map species
                (monsters (initalizeMonsters (fun _ => 5%Z) (fun _ => 1%Z)
                             (fun _ => mkRepresetiation 0 0) 17 duelGame)))
             Dragon <= 2)%nat
  /\ (count_occ Species_eq_dec
                (List.map species
                   (monsters (initalizeMonsters (fun _ => 5%Z) (fun _ => 1%Z)
                                (fun _ => mkRepresetiation 0 0) 17 duelGame)))
                Dragon = 0%nat
      <-> Z.rem 17 6 = 0).
Proof.
  apply (proj2 (initalizeMonsters_size (fun _ => 5) (fun _ => 1)
                  (fun _ => mkRepresetiation 0 0) 17 duelGame)). lia.
Defined.

Lemma loadLevel_player_and_roster_witness :
  getPosition (pbody (player (loadLevel 2 (fun _ => 5) (fun _ => 1)
                                (fun _ => mkRepresetiation 0 0) (fun m => m)
                                duelGame)))
  = mkPoint 0 0
  /\ length (monsters (loadLevel 2 (fun _ => 5) (fun _ => 1)
                                 (fun _ => mkRepresetiation 0 0) (fun m => m)
                                 duelGame)) = 2%nat
  /\ threads (loadLevel 2 (fun _ => 5) (fun _ => 1)
                        (fun _ => mkRepresetiation 0 0) (fun m => m) duelGame)
     = threads duelGame.
Proof.
  destruct (loadLevel_player_and_roster (fun _ => 5) (fun _ => 1)
              (fun _ => mkRepresetiation 0 0) 2 (fun m => m) duelGame)
    as (Hp & _ & _ & _ & Hn & _ & Ht & _); [lia | vm_compute; discriminate |].
  split; [exact Hp|]. split; [exact Hn | exact Ht].
Defined.

(** ** Who is alive in a running game *)

Lemma updateEntityPosition_healthy (g : Game) (r : EntityRef) (dx dy : Z) :
  healthy g -> healthy (updateEntityPosition g r dx dy).
Proof.
  intros [Hp Hms]. unfold updateEntityPosition.
  set (g1 := match pathThread g r with Some orc => detach g orc | None => g end).
  assert (player g1 = player g /\ monsters g1 = monsters g) as [Hp1 Hms1]
      by (unfold g1; destruct (pathThread g r); split; reflexivity).
  clearbody g1. destruct r as [|i]; cbn [getEntity].
  - unfold healthy. cbn. rewrite Hp1, Hms1, moveOrRevert_alive. split; assumption.
  - destruct (monsters g1 !! i) as [m|] eqn:Hm; cbn [fmap option_fmap option_map].
    + unfold healthy. cbn. rewrite Hp1. split; [exact Hp|].
      rewrite Hms1 in *. apply Forall_alter; [exact Hms|].
      intros x Hx Halive. rewrite Hm in Hx. injection Hx as <-.
      unfold aliveMonster in *. cbn [body setBody].
      rewrite moveOrRevert_alive. exact Halive.
    + unfold healthy. rewrite Hp1, Hms1. split; assumption.
Qed.

Lemma fight_healthy (fuel : nat) (g g' : Game) (a d : EntityRef) :
  healthy g -> fight fuel g a d = Running g' -> healthy g'.
Proof.
  intros Hg. unfold fight.
  destruct (getEntity g a) as [ea|]; [destruct (getEntity g d) as [ed|]|];
    try (intros [= <-]; exact Hg).
  destruct ((if sameEntity a d then soloLoop else fightLoop) fuel _) as [s|];
    [|discriminate].
  destruct (negb (isAlive _)) eqn:Halive; [discriminate|].
  destruct (erased _ d); [discriminate|].
  apply negb_false_iff in Halive. intros [= <-]. split.
  - destruct a, d; exact Halive.
  - destruct a, d; apply filter_alive_Forall.
Qed.

Lemma updatePositionsFrom_healthy (fuel todo : nat) :
  forall (i : nat) (g g' : Game),
    healthy g -> updatePositionsFrom fuel todo i g = Running g' -> healthy g'.
Proof.
  induction todo as [|todo IH]; intros i g g' Hg; cbn [updatePositionsFrom].
  - intros [= <-]. exact Hg.
  - destruct (monsters g !! i) as [m|]; [|intros [= <-]; exact Hg].
    destruct (monsterStep (player g) m) as [dx dy].
    pose proof (updateEntityPosition_healthy g (TheMonster i) dx dy Hg) as Hstep.
    destruct (onPlayer _ i); intros Hrun.
    + exact (fight_healthy _ _ _ _ _ Hstep Hrun).
    + exact (IH _ _ _ Hstep Hrun).
Qed.

Lemma handleInput_healthy (fuel : nat) (ch : Key) (g g' : Game) :
  healthy g -> handleInput fuel ch g = Running g' -> healthy g'.
Proof.
  intros Hg. destruct ch; cbn [handleInput]; try discriminate;
    try (intros [= <-]; try apply updateEntityPosition_healthy; exact Hg).
  destruct (firstMonsterAt _ _ _); [apply fight_healthy; exact Hg|].
  intros [= <-]. exact Hg.
Qed.

Section Alive.

Variable monsterCount : Z.
Variable baseHealth baseAttack : Species -> Z.
Variable glyph : Species -> Represetiation.
Variable Map_loadLevel : Map -> Map.
Hypothesis baseHealth_positive : forall sp : Species, 0 < baseHealth sp.

Lemma loadLevel_healthy (g : Game) :
  isAlive (pbody (player g)) = true ->
  healthy (loadLevel monsterCount baseHealth baseAttack glyph Map_loadLevel g).
Proof.
  intros Hp. unfold loadLevel.
  match goal with |- context [initalizeMonsters _ _ _ ?c ?g2] =>
    destruct (initalizeMonsters_keeps baseHealth baseAttack glyph c g2)
      as (_ & Hpl & _ & _ & _ & _ & _ & _ & _ & Hfresh)
  end.
  split.
  - rewrite Hpl. exact Hp.
  - eapply Forall_impl; [exact Hfresh|].
    intros m (_ & _ & Hh & _). unfold aliveMonster, isAlive.
    unfold getHealth in Hh. rewrite Hh. apply Z.ltb_lt. apply baseHealth_positive.
Qed.

Lemma turn_healthy (fuel : nat) (ch : Key) (g g' : Game) :
  healthy g ->
  turn monsterCount baseHealth baseAttack glyph Map_loadLevel fuel ch g = Running g' ->
  healthy g'.
Proof.
  intros Hg. unfold turn.
  destruct (handleInput fuel ch g) as [| | |g1] eqn:H1; try discriminate.
  pose proof (handleInput_healthy _ _ _ _ Hg H1) as Hg1.
  unfold updatePositions.
  destruct (updatePositionsFrom fuel _ 0 g1) as [| | |g2] eqn:H2; try discriminate.
  pose proof (updatePositionsFrom_healthy _ _ _ _ _ Hg1 H2) as Hg2.
  intros [= <-]. destruct (isLevelComplete g2); [|exact Hg2].
  apply loadLevel_healthy. exact (proj1 Hg2).
Qed.

Lemma runLoop_healthy (fuel : nat) (keys : list Key) :
  forall g g' : Game,
    healthy g ->
    runLoop monsterCount baseHealth baseAttack glyph Map_loadLevel fuel keys g
    = Running g' ->
    healthy g'.
Proof.
  induction keys as [|ch keys IH]; intros g g' Hg; cbn [runLoop];
    destruct (isGameOver g); try (intros [= <-]; exact Hg).
  destruct (turn _ _ _ _ _ fuel ch g) as [| | |g1] eqn:Ht; try discriminate.
  apply IH. exact (turn_healthy _ _ _ _ Hg Ht).
Qed.

(** X18: with a positive base health for every species and a player that
    is alive at the start, a run never comes back with a dead player or a
    dead monster in the roster: the test [isGameOver] of the loop is never
    true in a game the loop reaches, and the only way the game ends is the
    end of the process. *)
Theorem run_comes_back_alive (fuel : nat) (keys : list Key) (g g' : Game) :
  isAlive (pbody (player g)) = true ->
  run monsterCount baseHealth baseAttack glyph Map_loadLevel fuel keys g = Running g' ->
  isGameOver g' = false /\ Forall aliveMonster (monsters g').
Proof.
  intros Hp Hrun. unfold run in Hrun.
  destruct (runLoop_healthy _ _ _ _ (loadLevel_healthy g Hp) Hrun) as [Ha Hms].
  split; [|exact Hms]. unfold isGameOver. rewrite Ha. reflexivity.
Qed.

End Alive.

Lemma run_comes_back_alive_witness :
  exists g' : Game,
    run 2 (fun _ => 5) (fun _ => 1) (fun _ => mkRepresetiation 0 0) (fun m => m)
        5 [KeyRight; KeyDown]
        (newGame openMap (aPlayer 0 0 100 10) (constantRng 1)) = Running g'
    /\ isGameOver g' = false /\ Forall aliveMonster (monsters g').
Proof.
  eexists. split; [vm_compute; reflexivity|].
  apply (run_comes_back_alive 2 (fun _ => 5) (fun _ => 1)
           (fun _ => mkRepresetiation 0 0) (fun m => m) ltac:(intros; lia)
           5 [KeyRight; KeyDown]
           (newGame openMap (aPlayer 0 0 100 10) (constantRng 1)));
    vm_compute; reflexivity.
Defined.

(** ** The count of a level *)

Lemma pos_pow_1_l (p : positive) : (1 ^ p = 1)%positive.
Proof. apply Pos2Z.inj. rewrite Pos2Z.inj_pow. apply Z.pow_1_l. lia. Qed.

(** X19: for a [monsterCount] that is not negative and a result within the
    range of [int], the count [loadLevel] passes on is [monsterCount]
    itself at every level up to 0, where the power of two is a fraction
    that the conversion to [int] drops, and [monsterCount + 2^(level - 1)]
    from level 1 on. *)
Theorem levelMonsterCount_values (monsterCount lvl : Z) :
  0 <= monsterCount ->
  monsterCount + 2 ^ (lvl - 1) <= 2147483647 ->
  levelMonsterCount monsterCount lvl
  = if lvl <=? 0 then monsterCount else monsterCount + 2 ^ (lvl - 1).
Proof.
  intros Hmc _. unfold levelMonsterCount, truncate.
  destruct (lvl - 1) as [|p|p] eqn:E.
  - assert ((lvl <=? 0) = false) as -> by (apply Z.leb_gt; lia).
    cbn. rewrite Z.quot_1_r. lia.
  - assert ((lvl <=? 0) = false) as -> by (apply Z.leb_gt; lia).
    cbn [Qpower]. rewrite Qpower_decomp_positive.
    cbn [Qplus inject_Z Qnum Qden]. rewrite pos_pow_1_l.
    cbn [Pos.mul]. rewrite Z.quot_1_r. lia.
  - assert ((lvl <=? 0) = true) as -> by (apply Z.leb_le; lia).
    cbn [Qpower]. rewrite Qpower_decomp_positive.
    rewrite <- Pos2Z.inj_pow, pos_pow_1_l.
    cbn [Qinv Qplus inject_Z Qnum Qden Pos.mul].
    assert (1 < Z.pos (2 ^ p)) as Hbig.
    { rewrite Pos2Z.inj_pow. apply Z.pow_gt_1; lia. }
    rewrite Z.quot_div_nonneg by lia.
    rewrite Z.mul_1_l, Z.div_add_l by lia.
    rewrite Z.div_small by lia. lia.
Qed.

Lemma levelMonsterCount_values_witness :
  levelMonsterCount 12 0 = 12 /\ levelMonsterCount 12 (-3) = 12
  /\ levelMonsterCount 12 5 = 12 + 2 ^ 4.
Proof.
  split; [|split].
  - apply (levelMonsterCount_values 12 0); vm_compute; discriminate.
  - apply (levelMonsterCount_values 12 (-3)); vm_compute; discriminate.
  - apply (levelMonsterCount_values 12 5); vm_compute; discriminate.
Defined.

(** ** What a path thread changes *)

Lemma setPath_roster (orc : nat) (p : list Point) (ms : list Monster) :
  List.map body (List.map (fun m => if Nat.eqb (self m) orc then setPath m p else m) ms)
  = List.map body ms
  /\ List.map self
       (List.map (fun m => if Nat.eqb (self m) orc then setPath m p else m) ms)
     = List.map self ms
  /\ List.map species
       (List.map (fun m => if Nat.eqb (self m) orc then setPath m p else m) ms)
     = List.map species ms
  /\ Forall (fun m => if Nat.eqb (self m) orc then path m = p else In m ms)
            (List.map (fun m => if Nat.eqb (self m) orc then setPath m p else m) ms).
Proof.
  induction ms as [|m ms (IHb & IHa & IHs & IHp)]; [repeat split; constructor|].
  cbn [List.map]. rewrite IHb, IHa, IHs.
  destruct (Nat.eqb (self m) orc) eqn:E; cbn [body self species setPath];
    repeat split; constructor;
    try (cbn [self setPath path]; rewrite E; first [reflexivity | left; reflexivity]);
    (eapply Forall_impl; [exact IHp|]; intros x Hx; cbn beta in *;
     destruct (Nat.eqb (self x) orc); [exact Hx | right; exact Hx]).
Qed.

(** X20: a path thread that finishes drops its result exactly when the
    search threw or gave an empty path.  When it sets a path on a roster
    that still owns its Orc, it changes nothing but paths: the level, the
    player, the map, the generator and the threads are as before, every
    monster keeps its body, address and species, the monsters at the
    thread's address have the new path and all others are untouched. *)
Theorem path_thread_effects (g : Game) (orc : nat) (astar : option (list Point)) :
  (runPathThread g orc astar = Discarded <-> astar = None \/ astar = Some [])
  /\ forall g' : Game,
       runPathThread g orc astar = PathSet g' ->
       exists p : list Point,
         astar = Some p /\ p <> [] /\ inRoster g orc = true
         /\ level g' = level g /\ player g' = player g /\ gameMap g' = gameMap g
         /\ rng g' = rng g /\ threads g' = threads g
         /\ List.map body (monsters g') = List.map body (monsters g)
         /\ List.map self (monsters g') = List.map self (monsters g)
         /\ List.map species (monsters g') = List.map species (monsters g)
         /\ Forall (fun m => if Nat.eqb (self m) orc then path m = p
                             else In m (monsters g)) (monsters g').
Proof.
  unfold runPathThread. destruct astar as [[|q p]|]; cbn.
  - split; [split; [intros _; right; reflexivity | reflexivity]|].
    intros g'; discriminate.
  - destruct (inRoster g orc) eqn:Hin.
    + split; [split; [discriminate | intros [H|H]; discriminate]|].
      intros g' [= <-]. exists (q :: p).
      destruct (setPath_roster orc (q :: p) (monsters g)) as (Hb & Ha & Hs & Hp).
      cbn [setMonsters level player gameMap rng threads monsters].
      repeat split; try assumption. discriminate.
    + split; [split; [discriminate | intros [H|H]; discriminate]|].
      intros g'; discriminate.
  - split; [split; [intros _; left; reflexivity | reflexivity]|].
    intros g'; discriminate.
Qed.

Lemma path_thread_effects_witness :
  exists p : list Point,
    Some [mkPoint 29 29; mkPoint 28 28] = Some p /\ p <> []
    /\ inRoster mixedGame 1 = true.
Proof.
  destruct (proj2 (path_thread_effects mixedGame 1
                     (Some [mkPoint 29 29; mkPoint 28 28])) _ eq_refl)
    as (p & Hp & Hne & Hin & _).
  exists p. repeat split; assumption.
Defined.

(** ** The fight the player starts *)

(** X21: when the player is the attacker, as after the attack key, the
    fight never comes back to the game.  While the loop runs it is still
    fighting; when the loop ends with the player dead the process ends; and
    when it ends with the player alive, the monster that was fought is
    dead, the erase destroys it, and the last line of the log is then built
    from that destroyed monster: the call ends in a use after free. *)
Theorem player_attack_reads_erased_defender
  (fuel : nat) (g : Game) (front : list Monster) (m : Monster) (rest : list Monster) :
  monsters g = front ++ m :: rest ->
  fight fuel g ThePlayer (TheMonster (length front))
  = match fightLoop fuel (mkFight (pbody (player g)) (body m) [Attacks] (rng g)) with
    | None => OutOfFuel
    | Some s => if isAlive (attacker s) then UseAfterFree else Quit
    end.
Proof.
  intros Hms. unfold fight. cbn [getEntity sameEntity]. rewrite Hms at 1.
  rewrite list_lookup_middle by reflexivity. cbn [fmap option_fmap option_map].
  destruct (fightLoop fuel _) as [s|] eqn:Hloop; [|reflexivity].
  cbn [setEntity setRng setPlayer setMonsters player pbody].
  destruct (isAlive (attacker s)) eqn:Halive; [|reflexivity].
  pose proof (fightLoop_exit _ _ _ Hloop) as Hexit.
  rewrite Halive, andb_true_l in Hexit.
  cbn [negb]. unfold erased, setPlayer, setRng, setMonsters. cbn [monsters].
  rewrite Hms.
  rewrite list_lookup_alter_eq, list_lookup_middle by reflexivity.
  cbn [fmap option_fmap option_map body setBody]. rewrite Hexit. reflexivity.
Qed.

Lemma player_attack_reads_erased_defender_witness :
  fight 5 (aGame openMap [farGoblin; aMonster Goblin 1 0 0 5 1])
        ThePlayer (TheMonster 1) = UseAfterFree.
Proof.
  exact (eq_trans (player_attack_reads_erased_defender 5
                     (aGame openMap [farGoblin; aMonster Goblin 1 0 0 5 1])
                     [farGoblin] (aMonster Goblin 1 0 0 5 1) [] eq_refl)
                  eq_refl).
Defined.
